(** * SumGame: the rules engine of [App.tsx], embedded and verified

    The React component [App] keeps nine pieces of state and changes them
    from three places: the click handler of a block, the interval timers and
    the menu buttons.  This file embeds those handlers as functions on a
    record of the nine state variables and proves the properties the
    specification states about them.

    Conventions of the embedding.
    - JavaScript numbers that the program only uses as integers (block
      values, target, score, seconds, coordinates) are [Z].
    - [Math.random()] yields a number in [0,1); every call site receives
      its draw as an argument of type [Q].  [Array.prototype.sort] with the
      random comparator of [generateNewTarget] yields an order chosen by the
      JavaScript engine; the call site receives the outcome as a function
      [sort_draw] of which only "the result is a rearrangement of the array"
      is assumed, and only where a statement needs it.
    - A handler that raises a JavaScript [TypeError] returns [TypeError].
    - State setters queued by one handler are applied in the order they were
      queued, an updater function seeing the result of the updaters queued
      before it: this is how React processes the queue of one state hook. *)

From Stdlib Require Import ZArith QArith Qround String Lia.
From stdpp Require Import base list.

Local Open Scope Z_scope.

(** ** Constants and types of [utils.ts] *)

Definition GRID_COLS : nat := 6.
Definition GRID_ROWS : nat := 10.
Definition INITIAL_ROWS : nat := 4.

Inductive GameMode := classic | time.
Inductive GameStatus := idle | playing | gameover.

Record Block := mkBlock { id : string; value : Z }.

(** A cell is [Block | null]; a grid is [(Block | null)[][]]. *)
Abbreviation Cell := (option Block).
Abbreviation Row := (list (option Block)).
Abbreviation Grid := (list (list (option Block))).

(** An element [{ r, c }] of [selected]. *)
Record Coord := mkCoord { coord_r : Z; coord_c : Z }.

(** ** Outcomes of a handler *)

(** [OffRow] marks the one place where a write leaves the typed shape of the
    grid: [newGrid[r][c] = null] with [c] outside the row.  JavaScript then
    grows the array (leaving holes) or records a property that is not an
    index, and the row stops being a dense [(Block | null)[]].  The embedding
    follows the program up to that write and no further. *)
Inductive Run (A : Type) : Type :=
| Ret (a : A)
| TypeError
| OffRow.
Arguments Ret {A} a.
Arguments TypeError {A}.
Arguments OffRow {A}.

#[global] Instance Run_ret : MRet Run := fun A a => Ret a.
#[global] Instance Run_bind : MBind Run := fun A B f m =>
  match m with
  | Ret a => f a
  | TypeError => TypeError
  | OffRow => OffRow
  end.

(** [l[i]] for a JavaScript array and an integer [i]: [None] is
    [undefined]. *)
Definition jsIndex {A : Type} (l : list A) (i : Z) : option A :=
  if i <? 0 then None else l !! Z.to_nat i.

(** [l.slice(0, n)]: a negative [n] counts from the end of the array. *)
Definition jsSlice0 {A : Type} (l : list A) (n : Z) : list A :=
  if n <? 0 then take (Z.to_nat (Z.max (Z.of_nat (length l) + n) 0)) l
  else take (Z.to_nat n) l.

(** ** Random draws *)

(** The two draws behind one generated cell: the string [generateId] cuts
    out of the base 36 rendering of a random number, and the random number
    [getRandomValue] scales. *)
Record CellDraw := mkCellDraw { id_draw : string; value_draw : Q }.

(** The draws of one [generateRow] call, by column. *)
Abbreviation RowDraw := (nat -> CellDraw).

(** The draws of one [generateNewTarget] call. *)
Record TargetDraw := mkTargetDraw {
  count_draw : Q;
  sort_draw : list Block -> list Block
}.

Definition unitDraw (u : Q) : Prop := (0 <= u)%Q /\ (u < 1)%Q.

Definition validRowDraw (rd : RowDraw) : Prop :=
  forall k, unitDraw (value_draw (rd k)).

Definition validTargetDraw (td : TargetDraw) : Prop :=
  unitDraw (count_draw td) /\ forall l, sort_draw td l ≡ₚ l.

(** ** [utils.ts] *)

Definition generateId (d : CellDraw) : string := id_draw d.

(** [Math.floor(Math.random() * 9) + 1] *)
Definition getRandomValue (u : Q) : Z := Qfloor (u * 9) + 1.

(** [Array.from({ length: GRID_COLS }, () => ({ id, value }))] *)
Definition generateRow (rd : RowDraw) : Row :=
  map (fun k => Some (mkBlock (generateId (rd k)) (getRandomValue (value_draw (rd k)))))
      (seq 0 GRID_COLS).

(** ** The state of [App] *)

Record GameState := mkState {
  status : GameStatus;
  mode : GameMode;
  grid : Grid;
  selected : list Coord;
  target : Z;
  score : Z;
  timeLeft : Z;
  isPaused : bool;
  highScore : Z
}.

Definition setStatus (x : GameStatus) (s : GameState) : GameState :=
  mkState x (mode s) (grid s) (selected s) (target s) (score s) (timeLeft s)
          (isPaused s) (highScore s).
Definition setGrid (x : Grid) (s : GameState) : GameState :=
  mkState (status s) (mode s) x (selected s) (target s) (score s) (timeLeft s)
          (isPaused s) (highScore s).
Definition setSelected (x : list Coord) (s : GameState) : GameState :=
  mkState (status s) (mode s) (grid s) x (target s) (score s) (timeLeft s)
          (isPaused s) (highScore s).
Definition setTarget (x : Z) (s : GameState) : GameState :=
  mkState (status s) (mode s) (grid s) (selected s) x (score s) (timeLeft s)
          (isPaused s) (highScore s).
Definition setScore (x : Z) (s : GameState) : GameState :=
  mkState (status s) (mode s) (grid s) (selected s) (target s) x (timeLeft s)
          (isPaused s) (highScore s).
Definition setTimeLeft (x : Z) (s : GameState) : GameState :=
  mkState (status s) (mode s) (grid s) (selected s) (target s) (score s) x
          (isPaused s) (highScore s).
Definition setIsPaused (x : bool) (s : GameState) : GameState :=
  mkState (status s) (mode s) (grid s) (selected s) (target s) (score s)
          (timeLeft s) x (highScore s).
Definition setHighScore (x : Z) (s : GameState) : GameState :=
  mkState (status s) (mode s) (grid s) (selected s) (target s) (score s)
          (timeLeft s) (isPaused s) x.

(** The [useState] initial values. *)
Definition mounted : GameState :=
  mkState idle classic [] [] 0 0 10 false 0.

Definition isPlaying (s : GameState) : bool :=
  match status s with playing => true | _ => false end.

(** ** [generateNewTarget] *)

(** [currentGrid.flat().filter(b => b !== null)] *)
Definition flatBlocks (g : Grid) : list Block := omap (fun b => b) (mjoin g).

Definition sumValues (l : list Block) : Z :=
  fold_left (fun acc b => acc + value b) l 0.

Definition clampTarget (sum : Z) : Z := Z.max 5 (Z.min sum 40).

Definition pickCount (td : TargetDraw) (g : Grid) : Z :=
  Z.min (Z.of_nat (length (flatBlocks g))) (Qfloor (count_draw td * 3) + 2).

Definition pickedBlocks (td : TargetDraw) (g : Grid) : list Block :=
  jsSlice0 (sort_draw td (flatBlocks g)) (pickCount td g).

Definition generateNewTarget (td : TargetDraw) (g : Grid) : Z :=
  if (length (flatBlocks g) =? 0)%nat then 10
  else clampTarget (sumValues (pickedBlocks td g)).

(** ** [initGame] *)

Definition emptyGrid : Grid := replicate GRID_ROWS (replicate GRID_COLS None).

(** The loop [initialGrid[GRID_ROWS - 1 - i] = generateRow()]. *)
Definition initialGrid (rows : nat -> RowDraw) : Grid :=
  fold_left (fun g i => <[(GRID_ROWS - 1 - i)%nat := generateRow (rows i)]> g)
            (seq 0 INITIAL_ROWS) emptyGrid.

Definition initGame (selectedMode : GameMode) (rows : nat -> RowDraw)
    (td : TargetDraw) (s : GameState) : GameState :=
  mkState playing selectedMode (initialGrid rows) []
          (generateNewTarget td (initialGrid rows)) 0
          (match selectedMode with time => 15 | classic => 0 end)
          false (highScore s).

(** ** [addNewRow] *)

Definition occupied (cell : Cell) : bool :=
  match cell with Some _ => true | None => false end.

(** One turn of the loop [newGrid[r] = [...newGrid[r + 1]]]; spreading
    [undefined] raises. *)
Definition shiftStep (g : Run Grid) (r : nat) : Run Grid :=
  g ≫= fun g =>
  match g !! S r with
  | None => TypeError
  | Some below => Ret (<[r := below]> g)
  end.

Definition shiftUp (g : Grid) : Run Grid :=
  fold_left shiftStep (seq 0 (GRID_ROWS - 1)) (Ret g).

Definition addNewRow (rd : RowDraw) (s : GameState) : Run GameState :=
  match grid s !! 0%nat with
  | None => TypeError
  | Some top =>
      if existsb occupied top then Ret (setStatus gameover s)
      else shiftUp (grid s) ≫= fun g =>
           Ret (setGrid (<[(GRID_ROWS - 1)%nat := generateRow rd]> g) s)
  end.

(** ** [handleBlockClick] and [handleSuccess] *)

Definition sameCoord (r c : Z) (s : Coord) : bool :=
  (coord_r s =? r) && (coord_c s =? c).

(** The new selection: the clicked coordinate is removed when present and
    appended otherwise. *)
Definition toggle (sel : list Coord) (r c : Z) : list Coord :=
  if existsb (sameCoord r c) sel
  then List.filter (fun s => negb (sameCoord r c s)) sel
  else sel ++ [mkCoord r c].

(** [grid[s.r][s.c]?.value || 0] *)
Definition selectedValue (g : Grid) (s : Coord) : Run Z :=
  match jsIndex g (coord_r s) with
  | None => TypeError
  | Some row =>
      match jsIndex row (coord_c s) with
      | Some (Some b) => Ret (value b)
      | _ => Ret 0
      end
  end.

Fixpoint sumFrom (g : Grid) (sel : list Coord) (acc : Z) : Run Z :=
  match sel with
  | [] => Ret acc
  | s :: rest => selectedValue g s ≫= fun v => sumFrom g rest (acc + v)
  end.

Definition currentSum (g : Grid) (sel : list Coord) : Run Z := sumFrom g sel 0.

(** [newGrid[r][c] = null] *)
Definition clearCell (g : Grid) (s : Coord) : Run Grid :=
  match jsIndex g (coord_r s) with
  | None => TypeError
  | Some row =>
      if (0 <=? coord_c s) && (coord_c s <? Z.of_nat (length row))
      then Ret (<[Z.to_nat (coord_r s) := <[Z.to_nat (coord_c s) := None]> row]> g)
      else OffRow
  end.

Fixpoint clearCells (g : Grid) (sel : list Coord) : Run Grid :=
  match sel with
  | [] => Ret g
  | s :: rest => clearCell g s ≫= fun g' => clearCells g' rest
  end.

Definition handleSuccess (td : TargetDraw) (rd : RowDraw)
    (selectedBlocks : list Coord) (s : GameState) : Run GameState :=
  let points := target s * Z.of_nat (length selectedBlocks) in
  clearCells (grid s) selectedBlocks ≫= fun cleared =>
  let s1 := setTarget (generateNewTarget td cleared)
              (setSelected []
                (setGrid cleared
                  (setScore (score s + points) s))) in
  match mode s with
  | classic => addNewRow rd s1
  | time => Ret (setTimeLeft (Z.min (timeLeft s + 5) 20) s1)
  end.

Definition handleBlockClick (r c : Z) (td : TargetDraw) (rd : RowDraw)
    (s : GameState) : Run GameState :=
  if negb (isPlaying s) || isPaused s then Ret s
  else
    match jsIndex (grid s) r with
    | None => TypeError
    | Some row =>
        match jsIndex row c with
        | Some (Some _) =>
            let newSelected := toggle (selected s) r c in
            currentSum (grid s) newSelected ≫= fun sum =>
            if sum =? target s then handleSuccess td rd newSelected s
            else if sum >? target s then Ret (setSelected [] s)
            else Ret (setSelected newSelected s)
        | _ => Ret s
        end
    end.

(** ** Timers, the high score effect and the buttons *)

(** The updater the time mode interval passes to [setTimeLeft]. *)
Definition tick (rd : RowDraw) (s : GameState) : Run GameState :=
  if timeLeft s <=? 1
  then addNewRow rd s ≫= fun s' => Ret (setTimeLeft 10 s')
  else Ret (setTimeLeft (timeLeft s - 1) s).

(** An interval exists only while [status === 'playing' && !isPaused]. *)
Definition timerRuns (s : GameState) : bool := isPlaying s && negb (isPaused s).

Definition onInterval (rd : RowDraw) (s : GameState) : Run GameState :=
  if timerRuns s
  then match mode s with
       | time => tick rd s
       | classic => addNewRow rd s
       end
  else Ret s.

(** The effect [if (score > highScore) setHighScore(score)]. *)
Definition syncHighScore (s : GameState) : GameState :=
  if score s >? highScore s then setHighScore (score s) s else s.

Inductive Event :=
| InitGame (m : GameMode) (rows : nat -> RowDraw) (td : TargetDraw)
| BlockClick (r c : Z) (td : TargetDraw) (rd : RowDraw)
| Interval (rd : RowDraw)
| PauseButton
| MenuButton.

Definition handle (ev : Event) (s : GameState) : Run GameState :=
  match ev with
  | InitGame m rows td => Ret (initGame m rows td s)
  | BlockClick r c td rd => handleBlockClick r c td rd s
  | Interval rd => onInterval rd s
  | PauseButton => Ret (setIsPaused (negb (isPaused s)) s)
  | MenuButton => Ret (setStatus idle s)
  end.

(** A handler followed by the render it causes and the effect after it. *)
Definition dispatch (ev : Event) (s : GameState) : Run GameState :=
  handle ev s ≫= fun s' => Ret (syncHighScore s').

Definition validEvent (ev : Event) : Prop :=
  match ev with
  | InitGame _ rows td => (forall i, validRowDraw (rows i)) /\ validTargetDraw td
  | BlockClick _ _ td rd => validTargetDraw td /\ validRowDraw rd
  | Interval rd => validRowDraw rd
  | PauseButton | MenuButton => True
  end.

(** The states of a running game: those [initGame] produces from the
    mounted component, and those any further event leads to. *)
Inductive reachable : GameState -> Prop :=
| reach_init m rows td :
    validEvent (InitGame m rows td) ->
    reachable (syncHighScore (initGame m rows td mounted))
| reach_step s ev s' :
    reachable s -> validEvent ev -> dispatch ev s = Ret s' -> reachable s'.

(** * Vocabulary of the statements and sample data *)

Definition freshCell (cell : Cell) : Prop :=
  exists b, cell = Some b /\ 1 <= value b <= 9.

Definition topRow (g : Grid) : option Row := g !! 0%nat.

Definition emptyRow (row : Row) : Prop := Forall (fun cell => cell = None) row.

Definition wellShaped (g : Grid) : Prop :=
  length g = GRID_ROWS /\ Forall (fun row : Row => length row = GRID_COLS) g.

Definition shiftedRows (g : Grid) : Grid :=
  take (GRID_ROWS - 1) (drop 1 g) ++ drop (GRID_ROWS - 1) g.

(** The grid [addNewRow] leaves when the top row is empty. *)
Definition injected (rd : RowDraw) (g : Grid) : Grid :=
  <[(GRID_ROWS - 1)%nat := generateRow rd]> (shiftedRows g).

(** [g[r][c]] when row [r] exists: [Some None] is an empty cell, [None] a
    position outside the grid. *)
Definition cellAt (g : Grid) (r c : Z) : option Cell :=
  jsIndex g r ≫= fun row => jsIndex row c.

Definition inGrid (g : Grid) (p : Coord) : Prop :=
  is_Some (cellAt g (coord_r p) (coord_c p)).

Definition inBounds (p : Coord) : Prop :=
  0 <= coord_r p < Z.of_nat GRID_ROWS /\ 0 <= coord_c p < Z.of_nat GRID_COLS.

Definition onBlock (g : Grid) (p : Coord) : Prop :=
  exists b, cellAt g (coord_r p) (coord_c p) = Some (Some b).

(** Every selected coordinate references an occupied cell. *)
Definition selOccupied (s : GameState) : Prop :=
  Forall (onBlock (grid s)) (selected s).

(** The state [handleSuccess] builds before its mode specific step. *)
Definition afterClear (td : TargetDraw) (cleared : Grid) (count : nat)
    (s : GameState) : GameState :=
  mkState (status s) (mode s) cleared [] (generateNewTarget td cleared)
          (score s + target s * Z.of_nat count) (timeLeft s) (isPaused s)
          (highScore s).

(** What C8 states: a click is a no-op whenever the game is not playing, is
    paused, or the coordinate is outside the grid or on an empty cell. *)
Definition silentClick (s : GameState) (r c : Z) : Prop :=
  status s <> playing \/ isPaused s = true \/
  cellAt (grid s) r c = None \/ cellAt (grid s) r c = Some None.

Definition clickNeverFails : Prop :=
  forall r c td rd s, silentClick s r c -> handleBlockClick r c td rd s = Ret s.

(** What C4 states about a grid with occupied cells. *)
Definition sampledWithCountFrom2 (td : TargetDraw) (g : Grid) : Prop :=
  exists (k : Z) (picked rest : list Block),
    2 <= k <= Z.min 4 (Z.of_nat (length (flatBlocks g))) /\
    Z.of_nat (length picked) = k /\
    picked ++ rest ≡ₚ flatBlocks g /\
    generateNewTarget td g = clampTarget (sumValues picked).

Definition invariant (s : GameState) : Prop :=
  wellShaped (grid s) /\ Forall inBounds (selected s) /\ 5 <= target s <= 40.

(** An interval that shifts the rows under a non-empty selection is the one
    event that moves blocks away from selected coordinates. *)
Definition keepsSelectedCells (ev : Event) (s s' : GameState) : Prop :=
  match ev with
  | Interval _ => selected s = [] \/ grid s' = grid s
  | _ => True
  end.

(** The coordinate an event puts into the selection: the clicked one, on a
    cell that holds a block when the click arrives. *)
Definition selectedBy (ev : Event) (s : GameState) (p : Coord) : Prop :=
  match ev with
  | BlockClick r c _ _ => p = mkCoord r c /\ onBlock (grid s) p
  | _ => False
  end.

(** What C7 states. *)
Definition selectionAlwaysOccupied : Prop :=
  forall s, reachable s -> selOccupied s.

(** Every cell draw gives the value 5; the target draw asks for two blocks
    and keeps the array order. *)
Definition fives : RowDraw := fun _ => mkCellDraw "b" (1 # 2).
Definition firstTwo : TargetDraw := mkTargetDraw 0 (fun l => l).

Definition started (m : GameMode) : GameState :=
  syncHighScore (initGame m (fun _ => fives) firstTwo mounted).

Fixpoint runEvents (evs : list Event) (s : GameState) : Run GameState :=
  match evs with
  | [] => Ret s
  | ev :: rest => dispatch ev s ≫= runEvents rest
  end.

Definition stateOf (run : Run GameState) : GameState :=
  match run with Ret s => s | _ => mounted end.

Definition click (r c : Z) : Event := BlockClick r c firstTwo fives.

(** One block of row 7 selected. *)
Definition oneSelected (m : GameMode) : GameState :=
  stateOf (runEvents [click 7 0] (started m)).

(** Two blocks of row 7 cleared in classic mode, the rows shifted up by the
    row that success injects, and the block above the gap selected. *)
Definition aboveGap : GameState :=
  stateOf (runEvents [click 7 0; click 7 1; click 5 0] (started classic)).

(** The next interval of the classic timer. *)
Definition stranded : GameState :=
  stateOf (dispatch (Interval fives) aboveGap).

(** A grid whose top row is full. *)
Definition toppedOut : GameState :=
  mkState playing time (generateRow fives :: replicate 9 (replicate 6 None))
          [] 10 0 1 false 0.

(** A grid with a single block, of value 7, in the bottom left corner. *)
Definition oneBlockGrid : Grid :=
  <[9%nat := Some (mkBlock "a" 7) :: replicate 5 None]> emptyGrid.

(** Events other than the start of a new game. *)
Definition sameGame (ev : Event) : Prop :=
  match ev with InitGame _ _ _ => False | _ => True end.

(** A click whose row index is a row of the grid. *)
Definition rowInRange (ev : Event) : Prop :=
  match ev with
  | BlockClick r _ _ _ => 0 <= r < Z.of_nat GRID_ROWS
  | _ => True
  end.

(** Row 0 holds a block. *)
Definition topOccupied (g : Grid) : Prop :=
  exists top k b, topRow g = Some top /\ top !! k = Some (Some b).

(** The seconds shown by the timer, by mode. *)
Definition timerBounds (s : GameState) : Prop :=
  match mode s with
  | time => 1 <= timeLeft s <= 20
  | classic => timeLeft s = 0
  end.

Definition digit (b : Block) : Prop := 1 <= value b <= 9.

(** Every block of the grid has a value in 1..9. *)
Definition digitGrid (g : Grid) : Prop :=
  Forall (Forall (fun cell : Cell => forall b, cell = Some b -> digit b)) g.

(** The blocks of a row, left to right. *)
Definition rowBlocks (row : Row) : list Block := omap (fun b => b) row.

(** Two handlers in sequence. *)
Definition andThen (first second : GameState -> Run GameState)
    (s : GameState) : Run GameState :=
  first s ≫= second.

(** A classic game left alone: the seventh interval finds row 0 occupied. *)
Definition leftAlone : GameState :=
  stateOf (runEvents (replicate 7 (Interval fives)) (started classic)).

(** Clicks and timer intervals, the events a pause suspends. *)
Definition suspendedByPause (ev : Event) : Prop :=
  match ev with
  | BlockClick _ _ _ _ | Interval _ => True
  | _ => False
  end.

(** * Properties *)

(** ** Random values *)

Lemma floor_scaled_draw (u : Q) (n : Z) :
  0 < n -> unitDraw u -> 0 <= Qfloor (u * inject_Z n) < n.
Proof.
  intros Hn [H0 H1].
  assert (Hpos : (0 < inject_Z n)%Q).
  { change 0%Q with (inject_Z 0). rewrite <- Zlt_Qlt. exact Hn. }
  split.
  - change 0 with (Qfloor (inject_Z 0)). apply Qfloor_resp_le.
    apply Qmult_le_0_compat; [exact H0 | apply Qlt_le_weak, Hpos].
  - rewrite Zlt_Qlt.
    apply Qle_lt_trans with (u * inject_Z n)%Q; [apply Qfloor_le|].
    apply Qlt_le_trans with (1 * inject_Z n)%Q.
    + apply Qmult_lt_compat_r; assumption.
    + rewrite Qmult_1_l. apply Qle_refl.
Qed.

Lemma getRandomValue_range (u : Q) : unitDraw u -> 1 <= getRandomValue u <= 9.
Proof.
  intros Hu. unfold getRandomValue.
  pose proof (floor_scaled_draw u 9 eq_refl Hu) as H.
  change (inject_Z 9) with 9%Q in H. lia.
Qed.

Lemma count_draw_range (u : Q) : unitDraw u -> 2 <= Qfloor (u * 3) + 2 <= 4.
Proof.
  intros Hu.
  pose proof (floor_scaled_draw u 3 eq_refl Hu) as H.
  change (inject_Z 3) with 3%Q in H. lia.
Qed.

(** ** [generateRow] *)

Lemma generateRow_length (rd : RowDraw) : length (generateRow rd) = GRID_COLS.
Proof. unfold generateRow. rewrite length_map, length_seq. reflexivity. Qed.

Lemma generateRow_fresh (rd : RowDraw) :
  validRowDraw rd -> Forall freshCell (generateRow rd).
Proof.
  intros Hrd. unfold generateRow. apply Forall_map, Forall_forall.
  intros k _. eexists. split; [reflexivity|].
  simpl. apply getRandomValue_range, Hrd.
Qed.

Lemma generateRow_occupied (rd : RowDraw) (k : nat) (cell : Cell) :
  generateRow rd !! k = Some cell -> occupied cell = true.
Proof.
  unfold generateRow. rewrite list_lookup_fmap.
  destruct (seq 0 GRID_COLS !! k); simpl; [|discriminate].
  intros [= <-]. reflexivity.
Qed.

(** ** [addNewRow] *)

Lemma existsb_occupied_true (row : Row) :
  existsb occupied row = true <-> exists k b, row !! k = Some (Some b).
Proof.
  rewrite existsb_exists. split.
  - intros [[b|] [Hin Hocc]]; [|discriminate].
    apply list_elem_of_In, list_elem_of_lookup in Hin as [k Hk]. eauto.
  - intros (k & b & Hk). exists (Some b). split; [|reflexivity].
    apply list_elem_of_In, list_elem_of_lookup. eauto.
Qed.

Lemma existsb_occupied_false (row : Row) :
  existsb occupied row = false <-> emptyRow row.
Proof.
  unfold emptyRow. induction row as [|[b|] row IH]; simpl.
  - split; [constructor | reflexivity].
  - split; [discriminate | intros H; inversion H; discriminate].
  - rewrite IH. split; [intros H; constructor; [reflexivity | exact H]|].
    intros H. inversion H. assumption.
Qed.

(** After [k] turns of the loop the first [k] rows hold the rows that were
    below them and the rest of the array is as it was. *)
Lemma shift_loop (g : Grid) (k : nat) :
  (k < length g)%nat ->
  fold_left shiftStep (seq 0 k) (Ret g) = Ret (take k (drop 1 g) ++ drop k g).
Proof.
  induction k as [|k IH]; intros Hk.
  - reflexivity.
  - rewrite seq_S, fold_left_app, IH by lia. simpl.
    destruct (lookup_lt_is_Some_2 g (S k) Hk) as [below Hbelow].
    destruct (lookup_lt_is_Some_2 g k ltac:(lia)) as [here Hhere].
    assert (Hlen : length (take k (drop 1 g)) = k).
    { rewrite length_take, length_drop. lia. }
    rewrite lookup_app_r, Hlen, lookup_drop by lia.
    replace (k + (S k - k))%nat with (S k) by lia. rewrite Hbelow.
    rewrite insert_app_r_alt, Hlen, Nat.sub_diag by lia.
    rewrite (drop_S g here k Hhere). simpl.
    rewrite (take_S_r (drop 1 g) k below) by (rewrite lookup_drop; exact Hbelow).
    rewrite <- app_assoc. reflexivity.
Qed.

Lemma shiftUp_rows (g : Grid) :
  (GRID_ROWS <= length g)%nat -> shiftUp g = Ret (shiftedRows g).
Proof. intros H. apply shift_loop. unfold GRID_ROWS in *. lia. Qed.

Lemma shiftUp_short (g : Grid) :
  (length g < GRID_ROWS)%nat -> (0 < length g)%nat -> shiftUp g = TypeError.
Proof.
  intros Hshort Hpos. unfold shiftUp.
  replace (GRID_ROWS - 1)%nat
    with ((length g - 1) + S (GRID_ROWS - 1 - length g))%nat by lia.
  rewrite seq_app, fold_left_app, shift_loop by lia.
  rewrite Nat.add_0_l. cbn [seq fold_left shiftStep mbind Run_bind].
  rewrite (proj2 (lookup_ge_None _ _)).
  - generalize (seq (S (length g - 1)) (GRID_ROWS - 1 - length g)).
    intros l. induction l as [|x l IH]; [reflexivity | exact IH].
  - rewrite length_app, length_take, !length_drop. lia.
Qed.

Lemma injected_length (rd : RowDraw) (g : Grid) :
  (GRID_ROWS <= length g)%nat -> length (injected rd g) = length g.
Proof.
  intros H. unfold injected, shiftedRows.
  rewrite length_insert, length_app, length_take, !length_drop.
  unfold GRID_ROWS in *. lia.
Qed.

Lemma injected_above (rd : RowDraw) (g : Grid) (i : nat) :
  (GRID_ROWS <= length g)%nat -> (i < GRID_ROWS - 1)%nat ->
  injected rd g !! i = g !! S i.
Proof.
  intros H Hi. unfold injected, shiftedRows.
  rewrite list_lookup_insert_ne by lia.
  rewrite lookup_app_l by (rewrite length_take, length_drop; unfold GRID_ROWS in *; lia).
  rewrite lookup_take, lookup_drop. case_decide; [reflexivity | lia].
Qed.

Lemma injected_bottom (rd : RowDraw) (g : Grid) :
  (GRID_ROWS <= length g)%nat ->
  injected rd g !! (GRID_ROWS - 1)%nat = Some (generateRow rd).
Proof.
  intros H. unfold injected. apply list_lookup_insert_eq.
  unfold shiftedRows. rewrite length_app, length_take, !length_drop.
  unfold GRID_ROWS in *. lia.
Qed.

Lemma injected_wellShaped (rd : RowDraw) (g : Grid) :
  wellShaped g -> wellShaped (injected rd g).
Proof.
  intros [Hlen Hrows]. split.
  - rewrite injected_length; [exact Hlen | lia].
  - unfold injected, shiftedRows. apply Forall_insert.
    + apply Forall_app. split; [apply Forall_take, Forall_drop | apply Forall_drop];
        exact Hrows.
    + apply generateRow_length.
Qed.

Lemma addNewRow_gameover (rd : RowDraw) (s : GameState) (top : Row) :
  topRow (grid s) = Some top -> existsb occupied top = true ->
  addNewRow rd s = Ret (setStatus gameover s).
Proof. unfold topRow, addNewRow. intros -> ->. reflexivity. Qed.

Lemma addNewRow_inject (rd : RowDraw) (s : GameState) (top : Row) :
  (GRID_ROWS <= length (grid s))%nat ->
  topRow (grid s) = Some top -> existsb occupied top = false ->
  addNewRow rd s = Ret (setGrid (injected rd (grid s)) s).
Proof.
  unfold topRow, addNewRow. intros Hlen -> ->.
  rewrite shiftUp_rows by exact Hlen. reflexivity.
Qed.

(** Whatever the top row holds, [addNewRow] on a grid of [GRID_ROWS] rows
    ends in one of its two branches. *)
Lemma addNewRow_cases (rd : RowDraw) (s : GameState) :
  (GRID_ROWS <= length (grid s))%nat ->
  addNewRow rd s = Ret (setStatus gameover s) \/
  addNewRow rd s = Ret (setGrid (injected rd (grid s)) s).
Proof.
  intros Hlen.
  destruct (lookup_lt_is_Some_2 (grid s) 0) as [top Htop];
    [unfold GRID_ROWS in Hlen; lia|].
  destruct (existsb occupied top) eqn:Hocc.
  - left. eapply addNewRow_gameover; eauto.
  - right. eapply addNewRow_inject; eauto.
Qed.

(** [addNewRow] writes [status] or [grid] and nothing else. *)
Lemma addNewRow_frame (rd : RowDraw) (s s' : GameState) :
  addNewRow rd s = Ret s' ->
  s' = setStatus gameover s \/ exists g, s' = setGrid g s.
Proof.
  unfold addNewRow. destruct (grid s !! 0%nat) as [top|]; [|discriminate].
  destruct (existsb occupied top).
  - intros [= <-]. left. reflexivity.
  - destruct (shiftUp (grid s)) as [g| |]; simpl; try discriminate.
    intros [= <-]. right. eauto.
Qed.

(** ** Cells and selections *)

Lemma jsIndex_Some {A : Type} (l : list A) (i : Z) (x : A) :
  jsIndex l i = Some x <-> 0 <= i /\ l !! Z.to_nat i = Some x.
Proof.
  unfold jsIndex. destruct (Z.ltb_spec i 0); split.
  - discriminate.
  - intros [? _]. lia.
  - auto.
  - intros [_ ?]. assumption.
Qed.

Lemma jsIndex_is_Some {A : Type} (l : list A) (i : Z) :
  is_Some (jsIndex l i) <-> 0 <= i < Z.of_nat (length l).
Proof.
  unfold jsIndex. destruct (Z.ltb_spec i 0).
  - split; [intros [? [=]] | lia].
  - rewrite lookup_lt_is_Some. lia.
Qed.

Lemma jsIndex_insert {A : Type} (l : list A) (i j : Z) (x : A) :
  0 <= i -> (Z.to_nat i < length l)%nat ->
  jsIndex (<[Z.to_nat i := x]> l) j = if i =? j then Some x else jsIndex l j.
Proof.
  intros Hi Hlt. unfold jsIndex.
  destruct (Z.ltb_spec j 0), (Z.eqb_spec i j); try reflexivity; try lia.
  - subst. apply list_lookup_insert_eq, Hlt.
  - apply list_lookup_insert_ne. lia.
Qed.

Lemma cellAt_Some (g : Grid) (r c : Z) (cell : Cell) :
  cellAt g r c = Some cell <->
  exists row, jsIndex g r = Some row /\ jsIndex row c = Some cell.
Proof.
  unfold cellAt. destruct (jsIndex g r) as [row|]; simpl.
  - split; [eauto | intros (? & [= <-] & ?); assumption].
  - split; [discriminate | intros (? & [=] & _)].
Qed.

Lemma inGrid_inBounds (g : Grid) (p : Coord) :
  wellShaped g -> (inGrid g p <-> inBounds p).
Proof.
  intros [Hlen Hrows]. unfold inGrid, inBounds, cellAt.
  rewrite <- Hlen. split.
  - intros [cell H]. destruct (jsIndex g (coord_r p)) as [row|] eqn:Hrow;
      [|discriminate]. simpl in H.
    split; [apply jsIndex_is_Some; rewrite Hrow; eauto|].
    apply jsIndex_Some in Hrow as [_ Hrow].
    rewrite Forall_lookup in Hrows. rewrite <- (Hrows _ _ Hrow).
    apply jsIndex_is_Some. eauto.
  - intros [Hr Hc]. apply jsIndex_is_Some in Hr as [row Hrow]. rewrite Hrow.
    simpl. apply jsIndex_is_Some.
    apply jsIndex_Some in Hrow as [_ Hrow].
    rewrite Forall_lookup in Hrows. rewrite (Hrows _ _ Hrow). exact Hc.
Qed.

(** ** Clearing the selected cells *)

Lemma clearCell_cells (g : Grid) (p : Coord) :
  inGrid g p ->
  exists g', clearCell g p = Ret g' /\
    forall r c, cellAt g' r c =
                if sameCoord r c p then Some None else cellAt g r c.
Proof.
  intros [cell Hcell]. apply cellAt_Some in Hcell as (row & Hrow & Hcol).
  pose proof (proj1 (jsIndex_Some _ _ _) Hrow) as [Hr Hrow'].
  pose proof (proj1 (jsIndex_Some _ _ _) Hcol) as [Hc Hcol'].
  pose proof (lookup_lt_Some _ _ _ Hrow') as Hrlt.
  pose proof (lookup_lt_Some _ _ _ Hcol') as Hclt.
  unfold clearCell. rewrite Hrow.
  destruct (Z.leb_spec 0 (coord_c p)); [|lia].
  destruct (Z.ltb_spec (coord_c p) (Z.of_nat (length row))); [|lia].
  simpl. eexists. split; [reflexivity|].
  intros r c. unfold cellAt, sameCoord.
  rewrite jsIndex_insert by assumption.
  destruct (Z.eqb_spec (coord_r p) r) as [<-|Hne]; [|reflexivity].
  rewrite Hrow. simpl. rewrite jsIndex_insert by assumption.
  destruct (Z.eqb_spec (coord_c p) c); reflexivity.
Qed.

Lemma clearCell_wellShaped (g g' : Grid) (p : Coord) :
  clearCell g p = Ret g' -> wellShaped g -> wellShaped g'.
Proof.
  unfold clearCell. destruct (jsIndex g (coord_r p)) as [row|] eqn:Hrow;
    [|discriminate].
  destruct (_ && _); [|discriminate].
  intros [= <-] [Hlen Hrows]. split.
  - rewrite length_insert. exact Hlen.
  - apply Forall_insert; [exact Hrows|]. rewrite length_insert.
    apply jsIndex_Some in Hrow as [_ Hrow].
    rewrite Forall_lookup in Hrows. eauto.
Qed.

Lemma clearCell_length (g g' : Grid) (p : Coord) :
  clearCell g p = Ret g' -> length g' = length g.
Proof.
  unfold clearCell. destruct (jsIndex g (coord_r p)); [|discriminate].
  destruct (_ && _); [|discriminate].
  intros [= <-]. apply length_insert.
Qed.

Lemma clearCells_length (sel : list Coord) (g g' : Grid) :
  clearCells g sel = Ret g' -> length g' = length g.
Proof.
  revert g. induction sel as [|p sel IH]; intros g; simpl.
  - intros [= <-]. reflexivity.
  - destruct (clearCell g p) as [g1| |] eqn:Hg1; simpl; try discriminate.
    intros Hg'. rewrite (IH _ Hg'). eapply clearCell_length; eauto.
Qed.

Lemma clearCells_cells (sel : list Coord) (g : Grid) :
  Forall (inGrid g) sel ->
  exists g', clearCells g sel = Ret g' /\
    forall r c, cellAt g' r c =
                if existsb (sameCoord r c) sel then Some None else cellAt g r c.
Proof.
  revert g. induction sel as [|p sel IH]; intros g Hsel.
  - exists g. split; reflexivity.
  - inversion Hsel as [|? ? Hp Hrest]; subst.
    destruct (clearCell_cells g p Hp) as (g1 & Hg1 & Hcells1).
    destruct (IH g1) as (g' & Hg' & Hcells').
    { eapply Forall_impl; [exact Hrest|]. intros q [cell Hq].
      unfold inGrid. rewrite Hcells1. destruct (sameCoord _ _ p); eauto. }
    exists g'. split; [simpl; rewrite Hg1; exact Hg'|].
    intros r c. rewrite Hcells', Hcells1. simpl.
    destruct (sameCoord r c p), (existsb (sameCoord r c) sel); reflexivity.
Qed.

Lemma clearCells_wellShaped (sel : list Coord) (g g' : Grid) :
  clearCells g sel = Ret g' -> wellShaped g -> wellShaped g'.
Proof.
  revert g. induction sel as [|p sel IH]; intros g; simpl.
  - intros [= <-]. trivial.
  - destruct (clearCell g p) as [g1| |] eqn:Hg1; simpl; try discriminate.
    intros Hg' Hshape. eapply IH; [exact Hg'|].
    eapply clearCell_wellShaped; eauto.
Qed.

Lemma existsb_sameCoord (sel : list Coord) (p : Coord) :
  p ∈ sel -> existsb (sameCoord (coord_r p) (coord_c p)) sel = true.
Proof.
  intros Hin. apply existsb_exists. exists p. split.
  - apply list_elem_of_In, Hin.
  - unfold sameCoord. rewrite !Z.eqb_refl. reflexivity.
Qed.

(** ** [toggle] *)

Lemma toggle_inGrid (g : Grid) (sel : list Coord) (r c : Z) :
  Forall (inGrid g) sel -> is_Some (cellAt g r c) ->
  Forall (inGrid g) (toggle sel r c).
Proof.
  intros Hsel Hrc. unfold toggle. destruct (existsb _ sel).
  - apply Forall_forall. intros p Hp.
    apply list_elem_of_In, filter_In in Hp as [Hp _].
    rewrite Forall_forall in Hsel. apply Hsel, list_elem_of_In, Hp.
  - apply Forall_app. split; [exact Hsel|]. constructor; [exact Hrc | constructor].
Qed.

Lemma toggle_onBlock (g : Grid) (sel : list Coord) (r c : Z) (b : Block) :
  Forall (onBlock g) sel -> cellAt g r c = Some (Some b) ->
  Forall (onBlock g) (toggle sel r c).
Proof.
  intros Hsel Hrc. unfold toggle. destruct (existsb _ sel).
  - apply Forall_forall. intros p Hp.
    apply list_elem_of_In, filter_In in Hp as [Hp _].
    rewrite Forall_forall in Hsel. apply Hsel, list_elem_of_In, Hp.
  - apply Forall_app. split; [exact Hsel|].
    constructor; [exists b; exact Hrc | constructor].
Qed.

(** ** Row injection: C2, C3, C10 *)

(** C2: on a grid whose row 0 holds an occupied cell, [addNewRow] sets
    [status] to [gameover] and leaves the grid exactly as it was: no row is
    shifted and no bottom row is generated. *)
Theorem addNewRow_top_occupied (rd : RowDraw) (s : GameState) (top : Row)
    (k : nat) (b : Block) :
  topRow (grid s) = Some top -> top !! k = Some (Some b) ->
  exists s', addNewRow rd s = Ret s' /\ status s' = gameover /\ grid s' = grid s.
Proof.
  intros Htop Hk. exists (setStatus gameover s). split; [|split; reflexivity].
  apply addNewRow_gameover with top; [exact Htop|].
  apply existsb_occupied_true. eauto.
Qed.

(** C3: on a grid of [GRID_ROWS] rows whose row 0 is entirely empty,
    [addNewRow] puts the content of row [i+1] into row [i] for every [i] from
    0 to [GRID_ROWS - 2] and makes row [GRID_ROWS - 1] a generated row: it has
    [GRID_COLS] cells, each a block with a value in 1..9. *)
Theorem addNewRow_top_empty (rd : RowDraw) (s : GameState) (top : Row) :
  validRowDraw rd ->
  length (grid s) = GRID_ROWS -> topRow (grid s) = Some top -> emptyRow top ->
  exists s' bottom,
    addNewRow rd s = Ret s' /\
    (forall i, (i < GRID_ROWS - 1)%nat -> grid s' !! i = grid s !! S i) /\
    grid s' !! (GRID_ROWS - 1)%nat = Some bottom /\
    length bottom = GRID_COLS /\
    Forall freshCell bottom /\
    length (grid s') = GRID_ROWS.
Proof.
  intros Hrd Hlen Htop Hempty.
  exists (setGrid (injected rd (grid s)) s), (generateRow rd).
  assert (Hge : (GRID_ROWS <= length (grid s))%nat) by lia.
  split; [|split; [|split; [|split; [|split]]]]; cbn [grid setGrid].
  - apply addNewRow_inject with top; [exact Hge | exact Htop|].
    apply existsb_occupied_false, Hempty.
  - intros i Hi. apply injected_above; assumption.
  - apply (injected_bottom rd), Hge.
  - apply generateRow_length.
  - apply generateRow_fresh, Hrd.
  - rewrite injected_length by exact Hge. exact Hlen.
Qed.

(** C10: on a state whose grid has [GRID_ROWS] rows and an empty row 0,
    [addNewRow] changes the grid and nothing else: score, target, selection,
    status, mode, pause flag, high score and timer are as before.  The
    selection is kept as it is, neither cleared nor moved up with the rows. *)
Theorem addNewRow_changes_grid_only (rd : RowDraw) (s : GameState) (top : Row) :
  length (grid s) = GRID_ROWS -> topRow (grid s) = Some top -> emptyRow top ->
  exists s',
    addNewRow rd s = Ret s' /\
    grid s' = injected rd (grid s) /\
    score s' = score s /\ target s' = target s /\
    selected s' = selected s /\ status s' = status s /\
    mode s' = mode s /\ isPaused s' = isPaused s /\
    highScore s' = highScore s /\ timeLeft s' = timeLeft s.
Proof.
  intros Hlen Htop Hempty. exists (setGrid (injected rd (grid s)) s).
  split; [|repeat split].
  apply addNewRow_inject with top; [lia | exact Htop|].
  apply existsb_occupied_false, Hempty.
Qed.

(** ** The time mode timer: C9 *)

(** C9: in time mode, playing and not paused, the interval decrements
    [timeLeft] by one while it is above 1; at [timeLeft = 1] it calls
    [addNewRow] and sets [timeLeft] to 10, and when row 0 holds a block that
    call sets [status] to [gameover] and shifts nothing. *)
Theorem tick_time_mode (rd : RowDraw) (s : GameState) :
  status s = playing -> isPaused s = false -> mode s = time ->
  length (grid s) = GRID_ROWS ->
  (1 < timeLeft s -> onInterval rd s = Ret (setTimeLeft (timeLeft s - 1) s)) /\
  (timeLeft s = 1 ->
   exists s1,
     addNewRow rd s = Ret s1 /\
     onInterval rd s = Ret (setTimeLeft 10 s1) /\
     (forall top k b,
         topRow (grid s) = Some top -> top !! k = Some (Some b) ->
         status s1 = gameover /\ grid s1 = grid s)).
Proof.
  intros Hst Hp Hm Hlen. unfold onInterval, timerRuns, isPlaying, tick.
  rewrite Hst, Hp, Hm. simpl. split.
  - intros Ht. destruct (Z.leb_spec (timeLeft s) 1); [lia | reflexivity].
  - intros Ht. rewrite Ht. simpl.
    destruct (lookup_lt_is_Some_2 (grid s) 0) as [top Htop];
      [unfold GRID_ROWS in Hlen; lia|].
    destruct (existsb occupied top) eqn:Hocc.
    + rewrite (addNewRow_gameover rd s top Htop Hocc). simpl.
      eexists. split; [reflexivity|]. split; [reflexivity|].
      intros. split; reflexivity.
    + rewrite (addNewRow_inject rd s top) by (try exact Htop; try exact Hocc; lia).
      simpl. eexists. split; [reflexivity|]. split; [reflexivity|].
      intros top' k b Htop' Hk. exfalso.
      unfold topRow in *. rewrite Htop in Htop'. injection Htop' as <-.
      assert (existsb occupied top = true) by (apply existsb_occupied_true; eauto).
      congruence.
Qed.

(** ** Clicking a block: C1, C6, C8 *)

(** A click on a block of a running game toggles the coordinate and compares
    the sum of the new selection with the target. *)
Lemma handleBlockClick_on_block (r c : Z) (td : TargetDraw) (rd : RowDraw)
    (s : GameState) (b : Block) :
  status s = playing -> isPaused s = false ->
  cellAt (grid s) r c = Some (Some b) ->
  handleBlockClick r c td rd s =
  currentSum (grid s) (toggle (selected s) r c) ≫= fun sum =>
  if sum =? target s then handleSuccess td rd (toggle (selected s) r c) s
  else if sum >? target s then Ret (setSelected [] s)
  else Ret (setSelected (toggle (selected s) r c) s).
Proof.
  intros Hst Hp Hcell. apply cellAt_Some in Hcell as (row & Hrow & Hcol).
  unfold handleBlockClick, isPlaying. rewrite Hst, Hp, Hrow, Hcol. reflexivity.
Qed.

(** C1: in a playing, non-paused state whose grid has [GRID_ROWS] rows and
    whose selection lies inside the grid, when the toggled selection sums to
    the target, the click adds [target * (number of selected cells)] to the
    score, empties every selected cell and no other, empties the selection,
    draws the new target from the grid after the clearing, and then, in
    classic mode, calls [addNewRow] on that grid, in time mode sets
    [timeLeft] to [min (timeLeft + 5) 20] and injects no row. *)
Theorem handleBlockClick_success (r c : Z) (td : TargetDraw) (rd : RowDraw)
    (s : GameState) (b : Block) :
  status s = playing -> isPaused s = false ->
  cellAt (grid s) r c = Some (Some b) ->
  length (grid s) = GRID_ROWS -> Forall (inGrid (grid s)) (selected s) ->
  currentSum (grid s) (toggle (selected s) r c) = Ret (target s) ->
  exists cleared s',
    handleBlockClick r c td rd s = Ret s' /\
    clearCells (grid s) (toggle (selected s) r c) = Ret cleared /\
    (forall p, p ∈ toggle (selected s) r c ->
               cellAt cleared (coord_r p) (coord_c p) = Some None) /\
    (forall r' c', existsb (sameCoord r' c') (toggle (selected s) r c) = false ->
                   cellAt cleared r' c' = cellAt (grid s) r' c') /\
    score s' = score s + target s * Z.of_nat (length (toggle (selected s) r c)) /\
    selected s' = [] /\
    target s' = generateNewTarget td cleared /\
    (mode s = classic ->
       addNewRow rd (afterClear td cleared (length (toggle (selected s) r c)) s)
         = Ret s' /\
       timeLeft s' = timeLeft s) /\
    (mode s = time ->
       grid s' = cleared /\ status s' = status s /\
       timeLeft s' = Z.min (timeLeft s + 5) 20).
Proof.
  intros Hst Hp Hcell Hshape Hsel Hsum.
  set (newSelected := toggle (selected s) r c) in *.
  assert (Hnew : Forall (inGrid (grid s)) newSelected).
  { apply toggle_inGrid; [exact Hsel | rewrite Hcell; eauto]. }
  destruct (clearCells_cells newSelected (grid s) Hnew) as (cleared & Hclr & Hcells).
  assert (Hclick : handleBlockClick r c td rd s = handleSuccess td rd newSelected s).
  { rewrite (handleBlockClick_on_block r c td rd s b Hst Hp Hcell).
    fold newSelected. rewrite Hsum. simpl. rewrite Z.eqb_refl. reflexivity. }
  assert (Hcleared : forall p, p ∈ newSelected ->
            cellAt cleared (coord_r p) (coord_c p) = Some None).
  { intros p Hin. rewrite Hcells, existsb_sameCoord by exact Hin. reflexivity. }
  assert (Hother : forall r' c', existsb (sameCoord r' c') newSelected = false ->
            cellAt cleared r' c' = cellAt (grid s) r' c').
  { intros r' c' Hout. rewrite Hcells, Hout. reflexivity. }
  unfold handleSuccess in Hclick. rewrite Hclr in Hclick. simpl in Hclick.
  change (setTarget _ _) with (afterClear td cleared (length newSelected) s) in Hclick.
  destruct (mode s) eqn:Hmode.
  - pose proof (clearCells_length _ _ _ Hclr) as Hlen.
    set (s1 := afterClear td cleared (length newSelected) s) in *.
    destruct (addNewRow_cases rd s1) as [Hadd|Hadd];
      [simpl; lia | |]; rewrite Hadd in Hclick;
      eexists cleared, _; (split; [exact Hclick|]);
      (split; [exact Hclr|]); (split; [exact Hcleared|]);
      (split; [exact Hother|]); repeat split; try discriminate; exact Hadd.
  - eexists cleared, _. split; [exact Hclick|]. split; [exact Hclr|].
    split; [exact Hcleared|]. split; [exact Hother|].
    repeat split; discriminate.
Qed.

(** C6: in a playing, non-paused state, when the toggled selection sums to
    more than the target, the click empties the selection and leaves grid,
    score and target as they were. *)
Theorem handleBlockClick_overshoot (r c : Z) (td : TargetDraw) (rd : RowDraw)
    (s : GameState) (b : Block) (sum : Z) :
  status s = playing -> isPaused s = false ->
  cellAt (grid s) r c = Some (Some b) ->
  currentSum (grid s) (toggle (selected s) r c) = Ret sum ->
  target s < sum ->
  exists s',
    handleBlockClick r c td rd s = Ret s' /\
    selected s' = [] /\ grid s' = grid s /\
    score s' = score s /\ target s' = target s.
Proof.
  intros Hst Hp Hcell Hsum Hgt. exists (setSelected [] s).
  split; [|repeat split].
  rewrite (handleBlockClick_on_block r c td rd s b Hst Hp Hcell), Hsum. simpl.
  destruct (Z.eqb_spec sum (target s)); [lia|].
  destruct (Z.gtb_spec sum (target s)); [reflexivity | lia].
Qed.

(** C8, as the program has it: a click while the game is not playing or is
    paused changes nothing, whatever the coordinate; so does a click on an
    empty cell, or on a column outside an existing row.  A click on a row
    index outside the grid, while playing and not paused, raises a
    [TypeError] in [grid[r][c]]. *)
Theorem handleBlockClick_noop (r c : Z) (td : TargetDraw) (rd : RowDraw)
    (s : GameState) :
  (status s <> playing \/ isPaused s = true ->
     handleBlockClick r c td rd s = Ret s) /\
  (forall row, jsIndex (grid s) r = Some row ->
     jsIndex row c = None \/ jsIndex row c = Some None ->
     handleBlockClick r c td rd s = Ret s) /\
  (status s = playing -> isPaused s = false -> jsIndex (grid s) r = None ->
     handleBlockClick r c td rd s = TypeError).
Proof.
  unfold handleBlockClick, isPlaying. split; [|split].
  - intros [Hst|Hp].
    + destruct (status s); try reflexivity. congruence.
    + rewrite Hp, orb_true_r. reflexivity.
  - intros row Hrow Hcol.
    destruct (negb _ || isPaused s); [reflexivity|]. rewrite Hrow.
    destruct Hcol as [-> | ->]; reflexivity.
  - intros -> -> ->. reflexivity.
Qed.

(** ** [generateNewTarget]: C4 *)

(** The blocks [generateNewTarget] chooses from are the blocks of the
    occupied cells. *)
Lemma flatBlocks_elem (g : Grid) (b : Block) :
  b ∈ flatBlocks g <->
  exists i j row, g !! i = Some row /\ row !! j = Some (Some b).
Proof.
  unfold flatBlocks. rewrite list_elem_of_omap. split.
  - intros (cell & Hin & ->).
    apply list_elem_of_join in Hin as (row & Hcell & Hrow).
    apply list_elem_of_lookup in Hcell as [j Hj].
    apply list_elem_of_lookup in Hrow as [i Hi]. eauto.
  - intros (i & j & row & Hi & Hj). exists (Some b). split; [|reflexivity].
    apply list_elem_of_join. exists row.
    split; apply list_elem_of_lookup; eauto.
Qed.

Lemma clampTarget_range (sum : Z) : 5 <= clampTarget sum <= 40.
Proof. unfold clampTarget. lia. Qed.

Lemma generateNewTarget_range (td : TargetDraw) (g : Grid) :
  5 <= generateNewTarget td g <= 40.
Proof.
  unfold generateNewTarget. destruct (_ =? _)%nat; [lia|].
  apply clampTarget_range.
Qed.

Lemma pickCount_range (td : TargetDraw) (g : Grid) :
  validTargetDraw td ->
  exists d, 2 <= d <= 4 /\
            pickCount td g = Z.min (Z.of_nat (length (flatBlocks g))) d.
Proof.
  intros [Hu _]. exists (Qfloor (count_draw td * 3) + 2).
  split; [apply count_draw_range, Hu | reflexivity].
Qed.

(** C4, as the program has it: with no occupied cell the target is 10;
    otherwise, whatever the draws, the program takes a number [d] in 2..4,
    picks [k = min occupiedCount d] blocks at distinct positions among the
    occupied ones (so [k] is 1 when a single block is left) and returns the
    sum of their values clamped to 5..40. *)
Theorem generateNewTarget_sample (td : TargetDraw) (g : Grid) :
  validTargetDraw td ->
  (flatBlocks g = [] -> generateNewTarget td g = 10) /\
  (flatBlocks g <> [] ->
   exists (d : Z) (picked rest : list Block),
     2 <= d <= 4 /\
     Z.of_nat (length picked) = Z.min (Z.of_nat (length (flatBlocks g))) d /\
     picked ++ rest ≡ₚ flatBlocks g /\
     generateNewTarget td g = clampTarget (sumValues picked) /\
     5 <= generateNewTarget td g <= 40).
Proof.
  intros Htd. split.
  - intros Hnil. unfold generateNewTarget. rewrite Hnil. reflexivity.
  - intros Hne. destruct (pickCount_range td g Htd) as (d & Hd & Hcount).
    destruct Htd as [_ Hperm].
    exists d, (pickedBlocks td g),
      (drop (Z.to_nat (pickCount td g)) (sort_draw td (flatBlocks g))).
    assert (Hpos : 0 <= pickCount td g) by lia.
    assert (Hpick : pickedBlocks td g =
              take (Z.to_nat (pickCount td g)) (sort_draw td (flatBlocks g))).
    { unfold pickedBlocks, jsSlice0.
      destruct (Z.ltb_spec (pickCount td g) 0); [lia | reflexivity]. }
    split; [exact Hd|]. split; [|split; [|split]].
    + rewrite Hpick, length_take, (Permutation_length (Hperm _)). lia.
    + rewrite Hpick, take_drop. apply Hperm.
    + unfold generateNewTarget.
      destruct (flatBlocks g); [congruence | reflexivity].
    + apply generateNewTarget_range.
Qed.

(** ** What each handler can change *)

Lemma addNewRow_fields (rd : RowDraw) (s s' : GameState) :
  addNewRow rd s = Ret s' ->
  selected s' = selected s /\ target s' = target s /\ score s' = score s /\
  mode s' = mode s /\ timeLeft s' = timeLeft s /\
  isPaused s' = isPaused s /\ highScore s' = highScore s.
Proof.
  intros H. destruct (addNewRow_frame rd s s' H) as [-> | [g ->]];
    repeat split.
Qed.

Lemma addNewRow_wellShaped (rd : RowDraw) (s s' : GameState) :
  addNewRow rd s = Ret s' -> wellShaped (grid s) -> wellShaped (grid s').
Proof.
  intros H Hshape.
  destruct (addNewRow_cases rd s) as [H'|H'];
    [destruct Hshape; lia | |]; rewrite H' in H; injection H as <-.
  - exact Hshape.
  - apply injected_wellShaped, Hshape.
Qed.

Lemma handleSuccess_inv (td : TargetDraw) (rd : RowDraw) (sel : list Coord)
    (s s' : GameState) :
  handleSuccess td rd sel s = Ret s' ->
  exists cleared,
    clearCells (grid s) sel = Ret cleared /\
    (mode s = classic /\ addNewRow rd (afterClear td cleared (length sel) s) = Ret s'
     \/ mode s = time /\
        s' = setTimeLeft (Z.min (timeLeft s + 5) 20)
                         (afterClear td cleared (length sel) s)).
Proof.
  unfold handleSuccess.
  destruct (clearCells (grid s) sel) as [cleared| |]; simpl; try discriminate.
  change (setTarget _ _) with (afterClear td cleared (length sel) s).
  intros H. exists cleared. split; [reflexivity|].
  destruct (mode s); [left | right]; split; congruence.
Qed.

Lemma handleBlockClick_inv (r c : Z) (td : TargetDraw) (rd : RowDraw)
    (s s' : GameState) :
  handleBlockClick r c td rd s = Ret s' ->
  s' = s \/
  exists b, cellAt (grid s) r c = Some (Some b) /\
    (s' = setSelected [] s \/
     s' = setSelected (toggle (selected s) r c) s \/
     handleSuccess td rd (toggle (selected s) r c) s = Ret s').
Proof.
  unfold handleBlockClick.
  destruct (negb _ || _); [intros [= <-]; left; reflexivity|].
  destruct (jsIndex (grid s) r) as [row|] eqn:Hrow; [|discriminate].
  destruct (jsIndex row c) as [[b|]|] eqn:Hcol;
    [|intros [= <-]; left; reflexivity ..].
  destruct (currentSum _ _) as [sum| |]; simpl; try discriminate.
  intros H. right. exists b. split.
  - apply cellAt_Some. eauto.
  - destruct (sum =? target s); [right; right; exact H|].
    destruct (sum >? target s); injection H as <-; auto.
Qed.

Lemma onInterval_inv (rd : RowDraw) (s s' : GameState) :
  onInterval rd s = Ret s' ->
  s' = s \/ s' = setTimeLeft (timeLeft s - 1) s \/
  exists s1, addNewRow rd s = Ret s1 /\ (s' = s1 \/ s' = setTimeLeft 10 s1).
Proof.
  unfold onInterval, tick. destruct (timerRuns s); [|intros [= <-]; auto].
  destruct (mode s).
  - intros H. right. right. eauto.
  - destruct (timeLeft s <=? 1); [|intros [= <-]; auto].
    destruct (addNewRow rd s) as [s1| |]; simpl; try discriminate.
    intros [= <-]. right. right. eauto.
Qed.

Lemma onInterval_selected (rd : RowDraw) (s s' : GameState) :
  onInterval rd s = Ret s' -> selected s' = selected s.
Proof.
  intros H. destruct (onInterval_inv rd s s' H) as [-> | [-> | (s1 & Hs1 & Hs')]];
    try reflexivity.
  apply addNewRow_fields in Hs1 as (Hsel & _).
  destruct Hs' as [-> | ->]; exact Hsel.
Qed.

Lemma initialGrid_wellShaped (rows : nat -> RowDraw) : wellShaped (initialGrid rows).
Proof.
  split; [reflexivity|].
  unfold initialGrid, emptyGrid. cbn [seq INITIAL_ROWS fold_left].
  repeat apply Forall_insert; try apply generateRow_length.
  apply Forall_forall. intros row Hrow.
  apply elem_of_replicate in Hrow as [-> _]. apply length_replicate.
Qed.

(** ** Reachable states: C5, C7 *)

Lemma syncHighScore_invariant (s : GameState) :
  invariant s -> invariant (syncHighScore s).
Proof. unfold syncHighScore. destruct (_ >? _); trivial. Qed.

Lemma initGame_invariant (m : GameMode) (rows : nat -> RowDraw) (td : TargetDraw)
    (s : GameState) :
  invariant (initGame m rows td s).
Proof.
  split; [apply initialGrid_wellShaped|].
  split; [constructor | apply generateNewTarget_range].
Qed.

Lemma addNewRow_invariant (rd : RowDraw) (s s' : GameState) :
  addNewRow rd s = Ret s' -> invariant s -> invariant s'.
Proof.
  intros H (Hshape & Hsel & Htgt).
  pose proof (addNewRow_wellShaped rd s s' H Hshape).
  apply addNewRow_fields in H as (Hs & Ht & _).
  unfold invariant. rewrite Hs, Ht. auto.
Qed.

Lemma handleBlockClick_invariant (r c : Z) (td : TargetDraw) (rd : RowDraw)
    (s s' : GameState) :
  handleBlockClick r c td rd s = Ret s' -> invariant s -> invariant s'.
Proof.
  intros H Hinv. pose proof Hinv as (Hshape & Hsel & Htgt).
  destruct (handleBlockClick_inv r c td rd s s' H)
    as [-> | (b & Hcell & [-> | [-> | Hok]])].
  - exact Hinv.
  - split; [exact Hshape|]. split; [constructor | exact Htgt].
  - split; [exact Hshape|]. split; [|exact Htgt]. simpl.
    eapply Forall_impl; [|intros p; apply (inGrid_inBounds _ p Hshape)].
    apply toggle_inGrid; [|rewrite Hcell; eauto].
    eapply Forall_impl; [exact Hsel|].
    intros p; apply (inGrid_inBounds _ p Hshape).
  - apply handleSuccess_inv in Hok as (cleared & Hclr & Hmode).
    assert (Hafter : invariant (afterClear td cleared
                                  (length (toggle (selected s) r c)) s)).
    { split; [exact (clearCells_wellShaped _ _ _ Hclr Hshape)|].
      split; [constructor | apply generateNewTarget_range]. }
    destruct Hmode as [[_ Hadd] | [_ ->]].
    + eapply addNewRow_invariant; eauto.
    + exact Hafter.
Qed.

Lemma onInterval_invariant (rd : RowDraw) (s s' : GameState) :
  onInterval rd s = Ret s' -> invariant s -> invariant s'.
Proof.
  intros H Hinv.
  destruct (onInterval_inv rd s s' H) as [-> | [-> | (s1 & Hs1 & Hs')]];
    try exact Hinv.
  pose proof (addNewRow_invariant rd s s1 Hs1 Hinv).
  destruct Hs' as [-> | ->]; assumption.
Qed.

Lemma dispatch_invariant (ev : Event) (s s' : GameState) :
  dispatch ev s = Ret s' -> invariant s -> invariant s'.
Proof.
  unfold dispatch. destruct (handle ev s) as [s1| |] eqn:Hh; simpl; try discriminate.
  intros [= <-] Hinv. apply syncHighScore_invariant.
  destruct ev; simpl in Hh.
  - injection Hh as <-. apply initGame_invariant.
  - eapply handleBlockClick_invariant; eauto.
  - eapply onInterval_invariant; eauto.
  - injection Hh as <-. exact Hinv.
  - injection Hh as <-. exact Hinv.
Qed.

Lemma reachable_invariant (s : GameState) : reachable s -> invariant s.
Proof.
  induction 1 as [m rows td _ | s ev s' _ IH _ Hstep].
  - apply syncHighScore_invariant, initGame_invariant.
  - eapply dispatch_invariant; eauto.
Qed.

(** C5: in every state reachable from [initGame] by any sequence of clicks,
    timer intervals and button presses, the target lies between 5 and 40. *)
Theorem reachable_target_range (s : GameState) :
  reachable s -> 5 <= target s <= 40.
Proof. intros H. apply reachable_invariant in H as (_ & _ & Htgt). exact Htgt. Qed.

Lemma syncHighScore_grid (s : GameState) : grid (syncHighScore s) = grid s.
Proof. unfold syncHighScore. destruct (_ >? _); reflexivity. Qed.

Lemma syncHighScore_selected (s : GameState) :
  selected (syncHighScore s) = selected s.
Proof. unfold syncHighScore. destruct (_ >? _); reflexivity. Qed.

Lemma selOccupied_same (s s' : GameState) :
  grid s' = grid s -> selected s' = selected s -> selOccupied s -> selOccupied s'.
Proof. unfold selOccupied. intros -> ->. trivial. Qed.

Lemma selOccupied_nil (s : GameState) : selected s = [] -> selOccupied s.
Proof. unfold selOccupied. intros ->. constructor. Qed.

Lemma handleSuccess_selected (td : TargetDraw) (rd : RowDraw) (sel : list Coord)
    (s s' : GameState) :
  handleSuccess td rd sel s = Ret s' -> selected s' = [].
Proof.
  intros H. apply handleSuccess_inv in H as (cleared & _ & [[_ H] | [_ ->]]).
  - apply addNewRow_fields in H as (-> & _). reflexivity.
  - reflexivity.
Qed.

Lemma toggle_elem (sel : list Coord) (r c : Z) (p : Coord) :
  p ∈ toggle sel r c -> p ∈ sel \/ p = mkCoord r c.
Proof.
  unfold toggle. destruct (existsb _ sel).
  - intros Hp. left. apply list_elem_of_In.
    apply list_elem_of_In, filter_In in Hp as [Hp _]. exact Hp.
  - intros Hp. apply elem_of_app in Hp as [Hp | Hp]; [left; exact Hp|].
    right. apply list_elem_of_singleton in Hp. exact Hp.
Qed.

(** A click adds at most the clicked coordinate, and only from a cell that
    holds a block. *)
Lemma handleBlockClick_added (r c : Z) (td : TargetDraw) (rd : RowDraw)
    (s s' : GameState) (p : Coord) :
  handleBlockClick r c td rd s = Ret s' -> p ∈ selected s' ->
  p ∈ selected s \/ (p = mkCoord r c /\ onBlock (grid s) p).
Proof.
  intros H Hp.
  destruct (handleBlockClick_inv r c td rd s s' H)
    as [-> | (b & Hcell & [-> | [-> | Hok]])].
  - left. exact Hp.
  - simpl in Hp. apply elem_of_nil in Hp. destruct Hp.
  - simpl in Hp. apply toggle_elem in Hp as [Hp | ->]; [left; exact Hp|].
    right. split; [reflexivity|]. exists b. exact Hcell.
  - rewrite (handleSuccess_selected _ _ _ _ _ Hok) in Hp.
    apply elem_of_nil in Hp. destruct Hp.
Qed.

Lemma handle_added (ev : Event) (s s' : GameState) (p : Coord) :
  handle ev s = Ret s' -> p ∈ selected s' ->
  p ∈ selected s \/ selectedBy ev s p.
Proof.
  destruct ev as [m rows td | r c td rd | rd | |]; simpl.
  - intros [= <-] Hp. simpl in Hp. apply elem_of_nil in Hp. destruct Hp.
  - apply handleBlockClick_added.
  - intros H Hp. rewrite (onInterval_selected rd s s' H) in Hp. left. exact Hp.
  - intros [= <-] Hp. left. exact Hp.
  - intros [= <-] Hp. left. exact Hp.
Qed.

(** C7, as the program has it: in every reachable state the selected
    coordinates lie inside the [GRID_ROWS] by [GRID_COLS] grid.  Every
    coordinate of the selection after an event was in the selection before
    it or is the clicked one, which referenced an occupied cell when it was
    clicked.  And every event keeps the selection on occupied cells, except
    a timer interval that shifts the rows while the selection is not empty:
    [addNewRow] never touches [selected]. *)
Theorem selection_tracking (s : GameState) :
  reachable s ->
  Forall inBounds (selected s) /\
  forall ev s',
    dispatch ev s = Ret s' ->
    (forall p, p ∈ selected s' -> p ∈ selected s \/ selectedBy ev s p) /\
    (selOccupied s -> keepsSelectedCells ev s s' -> selOccupied s').
Proof.
  intros Hreach. split; [apply reachable_invariant in Hreach as (_ & H & _); exact H|].
  intros ev s' Hd. unfold dispatch in Hd.
  destruct (handle ev s) as [s1| |] eqn:Hh; simpl in Hd; try discriminate.
  injection Hd as <-. split.
  { intros p Hp. rewrite syncHighScore_selected in Hp.
    exact (handle_added ev s s1 p Hh Hp). }
  intros Hocc Hkeep.
  assert (Hgoal : (selOccupied s1 -> selOccupied (syncHighScore s1))).
  { apply selOccupied_same; [apply syncHighScore_grid | apply syncHighScore_selected]. }
  apply Hgoal. clear Hgoal.
  destruct ev as [m rows td | r c td rd | rd | |]; simpl in Hh.
  - injection Hh as <-. apply selOccupied_nil. reflexivity.
  - destruct (handleBlockClick_inv r c td rd s s1 Hh)
      as [-> | (b & Hcell & [-> | [-> | Hok]])].
    + exact Hocc.
    + apply selOccupied_nil. reflexivity.
    + unfold selOccupied. simpl. eapply toggle_onBlock; eauto.
    + apply selOccupied_nil. eapply handleSuccess_selected; eauto.
  - pose proof (onInterval_selected rd s s1 Hh) as Hsel.
    simpl in Hkeep. rewrite syncHighScore_grid in Hkeep.
    destruct Hkeep as [Hnil | Hgrid].
    + apply selOccupied_nil. congruence.
    + eapply selOccupied_same; eauto.
  - injection Hh as <-. exact Hocc.
  - injection Hh as <-. exact Hocc.
Qed.

(** ** Sample runs *)

Lemma unitDraw_half : unitDraw (1 # 2).
Proof. split; [discriminate | reflexivity]. Qed.

Lemma unitDraw_zero : unitDraw 0.
Proof. split; [discriminate | reflexivity]. Qed.

Lemma fives_valid : validRowDraw fives.
Proof. intros k. exact unitDraw_half. Qed.

Lemma firstTwo_valid : validTargetDraw firstTwo.
Proof. split; [exact unitDraw_zero | intros l; reflexivity]. Qed.

Lemma click_valid (r c : Z) : validEvent (click r c).
Proof. split; [exact firstTwo_valid | exact fives_valid]. Qed.

Lemma started_reachable (m : GameMode) : reachable (started m).
Proof.
  apply reach_init. split; [intros i; exact fives_valid | exact firstTwo_valid].
Qed.

Lemma runEvents_reachable (evs : list Event) (s s' : GameState) :
  reachable s -> Forall validEvent evs -> runEvents evs s = Ret s' ->
  reachable s'.
Proof.
  revert s. induction evs as [|ev evs IH]; intros s Hs Hvalid; simpl.
  - intros [= <-]. exact Hs.
  - inversion Hvalid; subst.
    destruct (dispatch ev s) as [s1| |] eqn:Hd; simpl; try discriminate.
    apply IH; [eapply reach_step; eauto | assumption].
Qed.

Lemma aboveGap_reachable : reachable aboveGap.
Proof.
  apply (runEvents_reachable [click 7 0; click 7 1; click 5 0] (started classic)).
  - apply started_reachable.
  - repeat (constructor; [apply click_valid|]). constructor.
  - vm_compute. reflexivity.
Qed.

Lemma aboveGap_selected : selected aboveGap = [mkCoord 5 0].
Proof. vm_compute. reflexivity. Qed.

Lemma aboveGap_occupied : selOccupied aboveGap.
Proof.
  unfold selOccupied. rewrite aboveGap_selected.
  constructor; [|constructor]. eexists. vm_compute. reflexivity.
Qed.

Lemma oneSelected_inGrid (m : GameMode) :
  Forall (inGrid (grid (oneSelected m))) (selected (oneSelected m)).
Proof.
  destruct m; (constructor; [|constructor]); eexists; vm_compute; reflexivity.
Qed.

(** ** Where the program departs from C4, C7 and C8 *)

(** C4 fails on a grid with a single block: the program picks that one
    block, a count of 1, and no count lies in 2..min(4, 1). *)
Lemma single_block_target :
  validTargetDraw firstTwo /\
  flatBlocks oneBlockGrid = [mkBlock "a" 7] /\
  pickCount firstTwo oneBlockGrid = 1 /\
  generateNewTarget firstTwo oneBlockGrid = 7 /\
  ~ sampledWithCountFrom2 firstTwo oneBlockGrid.
Proof.
  split; [exact firstTwo_valid|].
  split; [reflexivity|]. split; [reflexivity|]. split; [reflexivity|].
  intros (k & picked & rest & Hk & _).
  change (Z.of_nat (length (flatBlocks oneBlockGrid))) with 1 in Hk. lia.
Qed.

(** C7 fails after three clicks and one interval of the classic timer: the
    block at row 5 is selected, the rows move up, and the selection stays at
    row 5, where the gap left by the cleared blocks now is. *)
Lemma selection_stranded_by_interval :
  reachable aboveGap /\ selOccupied aboveGap /\
  validEvent (Interval fives) /\
  dispatch (Interval fives) aboveGap = Ret stranded /\
  reachable stranded /\
  selected stranded = [mkCoord 5 0] /\
  cellAt (grid stranded) 5 0 = Some None /\
  ~ selOccupied stranded /\
  ~ selectionAlwaysOccupied.
Proof.
  assert (Hstep : dispatch (Interval fives) aboveGap = Ret stranded)
    by (vm_compute; reflexivity).
  assert (Hreach : reachable stranded).
  { exact (reach_step aboveGap (Interval fives) stranded
             aboveGap_reachable fives_valid Hstep). }
  assert (Hsel : selected stranded = [mkCoord 5 0]) by (vm_compute; reflexivity).
  assert (Hcell : cellAt (grid stranded) 5 0 = Some None) by (vm_compute; reflexivity).
  assert (Hnot : ~ selOccupied stranded).
  { unfold selOccupied. rewrite Hsel. intros H.
    apply Forall_inv in H as [b Hb]. cbn [coord_r coord_c] in Hb.
    rewrite Hcell in Hb. discriminate. }
  split; [exact aboveGap_reachable|]. split; [exact aboveGap_occupied|].
  split; [exact fives_valid|]. split; [exact Hstep|]. split; [exact Hreach|].
  split; [exact Hsel|]. split; [exact Hcell|]. split; [exact Hnot|].
  intros Hall. exact (Hnot (Hall stranded Hreach)).
Qed.

(** C8 fails for a row index outside the grid while the game is playing and
    not paused: [grid[10]] is [undefined] and [grid[10][0]] raises. *)
Lemma click_outside_rows_raises :
  silentClick (started classic) 10 0 /\
  handleBlockClick 10 0 firstTwo fives (started classic) = TypeError /\
  ~ clickNeverFails.
Proof.
  assert (Hsilent : silentClick (started classic) 10 0).
  { right. right. left. reflexivity. }
  assert (Hraise : handleBlockClick 10 0 firstTwo fives (started classic) = TypeError)
    by reflexivity.
  split; [exact Hsilent|]. split; [exact Hraise|].
  intros Hall. specialize (Hall 10 0 firstTwo fives (started classic) Hsilent).
  rewrite Hraise in Hall. discriminate.
Qed.

(** ** The theorems at the sample runs *)

Lemma handleBlockClick_success_witness :
  currentSum (grid (oneSelected classic))
             (toggle (selected (oneSelected classic)) 7 1)
    = Ret (target (oneSelected classic)) /\
  exists s',
    handleBlockClick 7 1 firstTwo fives (oneSelected classic) = Ret s' /\
    score s' = 20 /\ selected s' = [] /\ timeLeft s' = 0.
Proof.
  split; [vm_compute; reflexivity|].
  destruct (handleBlockClick_success 7 1 firstTwo fives (oneSelected classic)
              (mkBlock "b" 5))
    as (cleared & s' & Hclick & _ & _ & _ & Hscore & Hsel & _ & Hclassic & _).
  - reflexivity.
  - reflexivity.
  - vm_compute. reflexivity.
  - reflexivity.
  - apply oneSelected_inGrid.
  - vm_compute. reflexivity.
  - exists s'. split; [exact Hclick|]. split; [exact Hscore|].
    split; [exact Hsel|]. apply Hclassic. reflexivity.
Defined.

Lemma addNewRow_top_occupied_witness :
  exists s', addNewRow fives toppedOut = Ret s' /\
             status s' = gameover /\ grid s' = grid toppedOut.
Proof.
  apply (addNewRow_top_occupied fives toppedOut (generateRow fives) 0
           (mkBlock "b" 5)); reflexivity.
Defined.

Lemma addNewRow_top_empty_witness :
  exists s' bottom,
    addNewRow fives aboveGap = Ret s' /\
    (forall i, (i < GRID_ROWS - 1)%nat -> grid s' !! i = grid aboveGap !! S i) /\
    grid s' !! (GRID_ROWS - 1)%nat = Some bottom /\
    length bottom = GRID_COLS /\
    Forall freshCell bottom /\
    length (grid s') = GRID_ROWS.
Proof.
  apply (addNewRow_top_empty fives aboveGap (replicate 6 None)).
  - exact fives_valid.
  - reflexivity.
  - reflexivity.
  - repeat constructor.
Defined.

Lemma addNewRow_changes_grid_only_witness :
  exists s',
    addNewRow fives aboveGap = Ret s' /\
    grid s' = injected fives (grid aboveGap) /\
    score s' = score aboveGap /\ target s' = target aboveGap /\
    selected s' = selected aboveGap /\ status s' = status aboveGap /\
    mode s' = mode aboveGap /\ isPaused s' = isPaused aboveGap /\
    highScore s' = highScore aboveGap /\ timeLeft s' = timeLeft aboveGap.
Proof.
  apply (addNewRow_changes_grid_only fives aboveGap (replicate 6 None)).
  - reflexivity.
  - reflexivity.
  - repeat constructor.
Defined.

Lemma tick_time_mode_witness :
  onInterval fives (started time) = Ret (setTimeLeft 14 (started time)) /\
  exists s1,
    addNewRow fives toppedOut = Ret s1 /\
    onInterval fives toppedOut = Ret (setTimeLeft 10 s1) /\
    status s1 = gameover /\ grid s1 = grid toppedOut.
Proof.
  split.
  - apply (tick_time_mode fives (started time)); reflexivity.
  - destruct (tick_time_mode fives toppedOut) as [_ H]; try reflexivity.
    destruct (H eq_refl) as (s1 & Hadd & Htick & Hover).
    exists s1. split; [exact Hadd|]. split; [exact Htick|].
    apply (Hover (generateRow fives) 0%nat (mkBlock "b" 5)); reflexivity.
Defined.

Lemma handleBlockClick_overshoot_witness :
  exists s',
    handleBlockClick 7 1 firstTwo fives (setTarget 7 (oneSelected time)) = Ret s' /\
    selected s' = [] /\
    grid s' = grid (oneSelected time) /\ score s' = 0 /\ target s' = 7.
Proof.
  apply (handleBlockClick_overshoot 7 1 firstTwo fives
           (setTarget 7 (oneSelected time)) (mkBlock "b" 5) 10).
  - reflexivity.
  - reflexivity.
  - vm_compute. reflexivity.
  - vm_compute. reflexivity.
  - reflexivity.
Defined.

Lemma generateNewTarget_sample_witness :
  generateNewTarget firstTwo emptyGrid = 10 /\
  exists (d : Z) (picked rest : list Block),
    2 <= d <= 4 /\
    Z.of_nat (length picked) = Z.min (Z.of_nat (length (flatBlocks oneBlockGrid))) d /\
    picked ++ rest ≡ₚ flatBlocks oneBlockGrid /\
    generateNewTarget firstTwo oneBlockGrid = clampTarget (sumValues picked) /\
    5 <= generateNewTarget firstTwo oneBlockGrid <= 40.
Proof.
  split.
  - apply (generateNewTarget_sample firstTwo emptyGrid firstTwo_valid). reflexivity.
  - apply (generateNewTarget_sample firstTwo oneBlockGrid firstTwo_valid).
    discriminate.
Defined.

Lemma reachable_target_range_witness : 5 <= target stranded <= 40.
Proof.
  apply reachable_target_range.
  apply (reach_step aboveGap (Interval fives)).
  - exact aboveGap_reachable.
  - exact fives_valid.
  - vm_compute. reflexivity.
Defined.

Lemma stranded_reachable : reachable stranded.
Proof.
  apply (reach_step aboveGap (Interval fives)).
  - exact aboveGap_reachable.
  - exact fives_valid.
  - vm_compute. reflexivity.
Qed.

Lemma selection_tracking_witness :
  Forall inBounds (selected stranded) /\
  selected (stateOf (dispatch (click 5 2) stranded)) = [mkCoord 5 0; mkCoord 5 2] /\
  (forall p, p ∈ selected (stateOf (dispatch (click 5 2) stranded)) ->
             p ∈ selected stranded \/ selectedBy (click 5 2) stranded p) /\
  selected (stateOf (dispatch (click 7 0) (started classic))) = [mkCoord 7 0] /\
  selOccupied (stateOf (dispatch (click 7 0) (started classic))).
Proof.
  destruct (selection_tracking stranded stranded_reachable) as [Hin Hstep].
  split; [exact Hin|]. split; [vm_compute; reflexivity|]. split.
  - apply (Hstep (click 5 2)). vm_compute. reflexivity.
  - split; [vm_compute; reflexivity|].
    destruct (selection_tracking (started classic) (started_reachable classic))
      as [_ Hstep'].
    apply (Hstep' (click 7 0)).
    + vm_compute. reflexivity.
    + apply selOccupied_nil. reflexivity.
    + exact I.
Defined.

Lemma handleBlockClick_noop_witness :
  handleBlockClick 7 0 firstTwo fives (setIsPaused true (started classic))
    = Ret (setIsPaused true (started classic)) /\
  handleBlockClick 0 0 firstTwo fives (started classic) = Ret (started classic) /\
  handleBlockClick 9 6 firstTwo fives (started classic) = Ret (started classic) /\
  handleBlockClick (-1) 0 firstTwo fives (started classic) = TypeError.
Proof.
  split; [|split; [|split]].
  - apply (handleBlockClick_noop 7 0 firstTwo fives (setIsPaused true (started classic))).
    right. reflexivity.
  - apply (proj1 (proj2 (handleBlockClick_noop 0 0 firstTwo fives (started classic)))
             (replicate 6 None)); [reflexivity | right; reflexivity].
  - apply (proj1 (proj2 (handleBlockClick_noop 9 6 firstTwo fives (started classic)))
             (generateRow fives)); [reflexivity | left; reflexivity].
  - apply (handleBlockClick_noop (-1) 0 firstTwo fives (started classic));
      reflexivity.
Defined.

(** * Further properties of the handlers *)

(** ** Induction over the reachable states *)

Lemma reachable_handle_ind (P : GameState -> Prop) :
  (forall s, P s -> P (syncHighScore s)) ->
  (forall m rows td s, validEvent (InitGame m rows td) -> P (initGame m rows td s)) ->
  (forall ev s s', reachable s -> validEvent ev -> sameGame ev -> P s ->
                   handle ev s = Ret s' -> P s') ->
  forall s, reachable s -> P s.
Proof.
  intros Hsync Hinit Hstep s Hreach.
  induction Hreach as [m rows td Hv | s ev s' Hreach IH Hv Hd].
  - apply Hsync, Hinit, Hv.
  - unfold dispatch in Hd.
    destruct (handle ev s) as [s1| |] eqn:Hh; simpl in Hd; try discriminate.
    injection Hd as <-. apply Hsync.
    destruct ev as [m rows td | r c td rd | rd | |];
      try (eapply Hstep; eauto; exact I).
    simpl in Hh. injection Hh as <-. apply Hinit, Hv.
Qed.

Lemma dispatch_inv (ev : Event) (s s' : GameState) :
  dispatch ev s = Ret s' ->
  exists s1, handle ev s = Ret s1 /\ s' = syncHighScore s1.
Proof.
  unfold dispatch. destruct (handle ev s) as [s1| |]; simpl; try discriminate.
  intros [= <-]. eauto.
Qed.

(** ** Score and high score *)

Lemma syncHighScore_score (s : GameState) : score (syncHighScore s) = score s.
Proof. unfold syncHighScore. destruct (_ >? _); reflexivity. Qed.

Lemma syncHighScore_covers (s : GameState) :
  score (syncHighScore s) <= highScore (syncHighScore s) /\
  highScore s <= highScore (syncHighScore s).
Proof.
  unfold syncHighScore. destruct (Z.gtb_spec (score s) (highScore s)); simpl; lia.
Qed.

Lemma handleBlockClick_score (r c : Z) (td : TargetDraw) (rd : RowDraw)
    (s s' : GameState) :
  handleBlockClick r c td rd s = Ret s' ->
  highScore s' = highScore s /\
  (score s' = score s \/
   score s' = score s + target s * Z.of_nat (length (toggle (selected s) r c))).
Proof.
  intros H.
  destruct (handleBlockClick_inv r c td rd s s' H)
    as [-> | (b & _ & [-> | [-> | Hok]])]; auto.
  apply handleSuccess_inv in Hok as (cleared & _ & [[_ Hadd] | [_ ->]]).
  - apply addNewRow_fields in Hadd as (_ & _ & -> & _ & _ & _ & ->). auto.
  - auto.
Qed.

Lemma onInterval_score (rd : RowDraw) (s s' : GameState) :
  onInterval rd s = Ret s' -> score s' = score s /\ highScore s' = highScore s.
Proof.
  intros H. destruct (onInterval_inv rd s s' H) as [-> | [-> | (s1 & Hs1 & Hs')]];
    auto.
  apply addNewRow_fields in Hs1 as (_ & _ & Hsc & _ & _ & _ & Hhi).
  destruct Hs' as [-> | ->]; auto.
Qed.

Lemma handle_highScore (ev : Event) (s s' : GameState) :
  handle ev s = Ret s' -> highScore s' = highScore s.
Proof.
  destruct ev as [m rows td | r c td rd | rd | |]; simpl.
  - intros [= <-]. reflexivity.
  - intros H. apply handleBlockClick_score in H as [H _]. exact H.
  - intros H. apply onInterval_score in H as [_ H]. exact H.
  - intros [= <-]. reflexivity.
  - intros [= <-]. reflexivity.
Qed.

Lemma handle_score (ev : Event) (s s' : GameState) :
  sameGame ev -> handle ev s = Ret s' ->
  score s' = score s \/ exists n : nat, score s' = score s + target s * Z.of_nat n.
Proof.
  destruct ev as [m rows td | r c td rd | rd | |]; simpl; intros Hev.
  - destruct Hev.
  - intros H. apply handleBlockClick_score in H as [_ [H | H]]; eauto.
  - intros H. apply onInterval_score in H as [H _]. auto.
  - intros [= <-]. auto.
  - intros [= <-]. auto.
Qed.

(** X1: within one game the score never drops: an event other than the
    start of a new game leaves it as it is or adds a multiple of the target,
    which is at least 5 in a reachable state. *)
Theorem score_never_drops (s s' : GameState) (ev : Event) :
  reachable s -> sameGame ev -> dispatch ev s = Ret s' ->
  score s <= score s'.
Proof.
  intros Hreach Hev Hd.
  apply reachable_invariant in Hreach as (_ & _ & Htgt).
  apply dispatch_inv in Hd as (s1 & Hh & ->). rewrite syncHighScore_score.
  destruct (handle_score ev s s1 Hev Hh) as [-> | [n ->]]; nia.
Qed.

Lemma score_never_drops_witness :
  score aboveGap <= score (stateOf (dispatch (Interval fives) aboveGap)).
Proof.
  apply (score_never_drops aboveGap _ (Interval fives)).
  - exact aboveGap_reachable.
  - exact I.
  - vm_compute. reflexivity.
Defined.

(** X2: in every reachable state the high score is at least the score. *)
Theorem reachable_highScore (s : GameState) :
  reachable s -> score s <= highScore s.
Proof.
  intros Hreach. destruct Hreach as [m rows td _ | s ev s' _ _ Hd].
  - apply syncHighScore_covers.
  - apply dispatch_inv in Hd as (s1 & _ & ->). apply syncHighScore_covers.
Qed.

Lemma reachable_highScore_witness : score aboveGap <= highScore aboveGap.
Proof. apply reachable_highScore, aboveGap_reachable. Defined.

(** X3: no event lowers the high score, not even the menu button or the
    start of a new game, in any state. *)
Theorem highScore_never_drops (s s' : GameState) (ev : Event) :
  dispatch ev s = Ret s' -> highScore s <= highScore s'.
Proof.
  intros Hd. apply dispatch_inv in Hd as (s1 & Hh & ->).
  rewrite <- (handle_highScore ev s s1 Hh). apply syncHighScore_covers.
Qed.

Lemma highScore_never_drops_witness :
  highScore aboveGap
  <= highScore (stateOf (dispatch (InitGame time (fun _ => fives) firstTwo) aboveGap)).
Proof.
  apply (highScore_never_drops aboveGap _ (InitGame time (fun _ => fives) firstTwo)).
  reflexivity.
Defined.

(** ** The start of a game *)

Lemma initialGrid_rows (rows : nat -> RowDraw) :
  initialGrid rows =
  replicate (GRID_ROWS - INITIAL_ROWS) (replicate GRID_COLS None)
  ++ [generateRow (rows 3%nat); generateRow (rows 2%nat);
      generateRow (rows 1%nat); generateRow (rows 0%nat)].
Proof. reflexivity. Qed.

(** X4: [initGame] builds a grid of [GRID_ROWS] rows whose upper
    [GRID_ROWS - INITIAL_ROWS] rows are empty and whose lower [INITIAL_ROWS]
    rows are full of blocks with values in 1..9, the bottom row being the
    first one generated; it starts playing with score 0, no selection, no
    pause, 15 seconds in time mode and 0 in classic mode, and keeps the high
    score of the state it replaces. *)
Theorem initGame_layout (m : GameMode) (rows : nat -> RowDraw)
    (td : TargetDraw) (s : GameState) :
  (forall i, validRowDraw (rows i)) ->
  status (initGame m rows td s) = playing /\
  mode (initGame m rows td s) = m /\
  score (initGame m rows td s) = 0 /\
  selected (initGame m rows td s) = [] /\
  isPaused (initGame m rows td s) = false /\
  highScore (initGame m rows td s) = highScore s /\
  timeLeft (initGame m rows td s) = match m with time => 15 | classic => 0 end /\
  length (grid (initGame m rows td s)) = GRID_ROWS /\
  (forall i, (i < GRID_ROWS - INITIAL_ROWS)%nat ->
     grid (initGame m rows td s) !! i = Some (replicate GRID_COLS None)) /\
  (forall i, (i < INITIAL_ROWS)%nat ->
     grid (initGame m rows td s) !! (GRID_ROWS - 1 - i)%nat
       = Some (generateRow (rows i)) /\
     length (generateRow (rows i)) = GRID_COLS /\
     Forall freshCell (generateRow (rows i))).
Proof.
  intros Hrows. repeat (split; [reflexivity|]).
  cbn [grid initGame]. rewrite initialGrid_rows. split.
  - intros i Hi. rewrite lookup_app_l by (rewrite length_replicate; exact Hi).
    apply lookup_replicate_2, Hi.
  - intros i Hi. split; [|split; [apply generateRow_length |
                                  apply generateRow_fresh, Hrows]].
    unfold INITIAL_ROWS in Hi.
    destruct i as [|[|[|[|i]]]]; try reflexivity. lia.
Qed.

Lemma initGame_layout_witness :
  grid (initGame time (fun _ => fives) firstTwo aboveGap) !! 0%nat
    = Some (replicate GRID_COLS None) /\
  grid (initGame time (fun _ => fives) firstTwo aboveGap) !! 9%nat
    = Some (generateRow fives) /\
  highScore (initGame time (fun _ => fives) firstTwo aboveGap) = highScore aboveGap.
Proof.
  destruct (initGame_layout time (fun _ => fives) firstTwo aboveGap
              (fun _ => fives_valid))
    as (_ & _ & _ & _ & _ & Hhigh & _ & _ & Hupper & Hlower).
  split; [apply Hupper; unfold GRID_ROWS, INITIAL_ROWS; lia|].
  split; [|exact Hhigh].
  apply (Hlower 0%nat). unfold INITIAL_ROWS. lia.
Defined.

(** ** Outside play *)

Lemma notPlaying_handle (ev : Event) (s s' : GameState) :
  status s <> playing -> sameGame ev -> handle ev s = Ret s' ->
  s' = s \/ s' = setIsPaused (negb (isPaused s)) s \/ s' = setStatus idle s.
Proof.
  intros Hst Hev.
  assert (Hnp : isPlaying s = false).
  { unfold isPlaying. destruct (status s); congruence. }
  destruct ev as [m rows td | r c td rd | rd | |]; simpl.
  - destruct Hev.
  - unfold handleBlockClick. rewrite Hnp. simpl. intros [= <-]. auto.
  - unfold onInterval, timerRuns. rewrite Hnp. simpl. intros [= <-]. auto.
  - intros [= <-]. auto.
  - intros [= <-]. auto.
Qed.

(** X5: once the game is over, or back at the menu, the game is frozen: no
    click, timer interval or button other than the start of a new game
    changes grid, selection, target, score, timer or mode, and the status
    stays as it is or becomes [idle]. *)
Theorem notPlaying_frozen (s s' : GameState) (ev : Event) :
  status s <> playing -> sameGame ev -> dispatch ev s = Ret s' ->
  grid s' = grid s /\ selected s' = selected s /\ target s' = target s /\
  score s' = score s /\ timeLeft s' = timeLeft s /\ mode s' = mode s /\
  (status s' = status s \/ status s' = idle).
Proof.
  intros Hst Hev Hd. apply dispatch_inv in Hd as (s1 & Hh & ->).
  assert (Hsync : forall x, grid (syncHighScore x) = grid x /\
            selected (syncHighScore x) = selected x /\
            target (syncHighScore x) = target x /\
            score (syncHighScore x) = score x /\
            timeLeft (syncHighScore x) = timeLeft x /\
            mode (syncHighScore x) = mode x /\
            status (syncHighScore x) = status x).
  { intros x. unfold syncHighScore. destruct (_ >? _); repeat split. }
  destruct (Hsync s1) as (-> & -> & -> & -> & -> & -> & ->).
  destruct (notPlaying_handle ev s s1 Hst Hev Hh) as [-> | [-> | ->]];
    repeat split; auto.
Qed.

Lemma notPlaying_frozen_witness :
  grid (stateOf (dispatch (click 9 0) (setStatus gameover aboveGap)))
    = grid aboveGap /\
  score (stateOf (dispatch (click 9 0) (setStatus gameover aboveGap)))
    = score aboveGap.
Proof.
  destruct (notPlaying_frozen (setStatus gameover aboveGap)
              (stateOf (dispatch (click 9 0) (setStatus gameover aboveGap)))
              (click 9 0))
    as (Hgrid & _ & _ & Hscore & _).
  - discriminate.
  - exact I.
  - vm_compute. reflexivity.
  - split; [exact Hgrid | exact Hscore].
Defined.

Lemma addNewRow_inv (rd : RowDraw) (s s' : GameState) :
  addNewRow rd s = Ret s' ->
  (topOccupied (grid s) /\ s' = setStatus gameover s) \/
  (exists g, s' = setGrid g s).
Proof.
  unfold addNewRow. destruct (grid s !! 0%nat) as [top|] eqn:Htop; [|discriminate].
  destruct (existsb occupied top) eqn:Hocc.
  - intros [= <-]. left. split; [|reflexivity].
    apply existsb_occupied_true in Hocc as (k & b & Hk). exists top, k, b. auto.
  - destruct (shiftUp (grid s)) as [g| |]; simpl; try discriminate.
    intros [= <-]. right. eauto.
Qed.

Lemma isPlaying_status (s : GameState) :
  isPlaying s = true <-> status s = playing.
Proof. unfold isPlaying. destruct (status s); split; congruence. Qed.

Lemma handleBlockClick_idle (r c : Z) (td : TargetDraw) (rd : RowDraw)
    (s s' : GameState) :
  handleBlockClick r c td rd s = Ret s' -> s' = s \/ status s = playing.
Proof.
  unfold handleBlockClick. destruct (isPlaying s) eqn:Hp; simpl.
  - intros _. right. apply isPlaying_status, Hp.
  - intros [= <-]. left. reflexivity.
Qed.

Lemma onInterval_idle (rd : RowDraw) (s s' : GameState) :
  onInterval rd s = Ret s' -> s' = s \/ status s = playing.
Proof.
  unfold onInterval, timerRuns. destruct (isPlaying s) eqn:Hp; simpl.
  - intros _. right. apply isPlaying_status, Hp.
  - intros [= <-]. left. reflexivity.
Qed.

Lemma addNewRow_gameover_top (rd : RowDraw) (s s' : GameState) :
  addNewRow rd s = Ret s' -> status s = playing -> status s' = gameover ->
  topOccupied (grid s').
Proof.
  intros H Hst Hover. destruct (addNewRow_inv rd s s' H) as [[Htop ->] | [g ->]].
  - exact Htop.
  - simpl in Hover. congruence.
Qed.

Lemma handle_gameover (ev : Event) (s s' : GameState) :
  handle ev s = Ret s' -> status s' = gameover ->
  (status s = gameover /\ grid s' = grid s) \/ topOccupied (grid s').
Proof.
  destruct ev as [m rows td | r c td rd | rd | |]; simpl.
  - intros [= <-]. discriminate.
  - intros H Hover. destruct (handleBlockClick_idle r c td rd s s' H) as [-> | Hst];
      [left; auto|].
    destruct (handleBlockClick_inv r c td rd s s' H)
      as [-> | (b & _ & [-> | [-> | Hok]])]; try (simpl in Hover; congruence).
    apply handleSuccess_inv in Hok as (cleared & _ & [[_ Hadd] | [_ ->]]).
    + right. eapply addNewRow_gameover_top; eauto.
    + simpl in Hover. congruence.
  - intros H Hover. destruct (onInterval_idle rd s s' H) as [-> | Hst];
      [left; auto|].
    destruct (onInterval_inv rd s s' H) as [-> | [-> | (s1 & Hs1 & Hs')]];
      try (simpl in Hover; congruence).
    right. destruct Hs' as [-> | ->]; simpl in Hover |- *;
      apply (addNewRow_gameover_top rd s s1); assumption.
  - intros [= <-]. simpl. auto.
  - intros [= <-]. discriminate.
Qed.

(** X6: the game is only ever over with a block in row 0: in every
    reachable state with status [gameover], row 0 of the grid holds a
    block. *)
Theorem gameover_top_occupied (s : GameState) :
  reachable s -> status s = gameover -> topOccupied (grid s).
Proof.
  intros Hreach. induction Hreach as [m rows td _ | s ev s' _ IH _ Hd].
  - unfold syncHighScore. destruct (_ >? _); discriminate.
  - apply dispatch_inv in Hd as (s1 & Hh & ->).
    rewrite syncHighScore_grid.
    assert (Hst : status (syncHighScore s1) = status s1).
    { unfold syncHighScore. destruct (_ >? _); reflexivity. }
    rewrite Hst. intros Hover.
    destruct (handle_gameover ev s s1 Hh Hover) as [[Hbefore ->] | Htop]; auto.
Qed.

Lemma leftAlone_reachable : reachable leftAlone.
Proof.
  apply (runEvents_reachable (replicate 7 (Interval fives)) (started classic)).
  - apply started_reachable.
  - apply Forall_forall. intros ev Hev.
    apply elem_of_replicate in Hev as [-> _]. exact fives_valid.
  - vm_compute. reflexivity.
Qed.

Lemma gameover_top_occupied_witness :
  status leftAlone = gameover /\ topOccupied (grid leftAlone).
Proof.
  split; [reflexivity|].
  apply gameover_top_occupied; [exact leftAlone_reachable | reflexivity].
Defined.

(** ** Shape of the grid and of the selection *)

(** X7: the grid keeps its dimensions for the whole run: in every reachable
    state it has [GRID_ROWS] rows of [GRID_COLS] cells each. *)
Theorem reachable_grid_shape (s : GameState) :
  reachable s ->
  length (grid s) = GRID_ROWS /\
  forall i row, grid s !! i = Some row -> length row = GRID_COLS.
Proof.
  intros Hreach. apply reachable_invariant in Hreach as ([Hlen Hrows] & _).
  split; [exact Hlen|]. rewrite Forall_lookup in Hrows. exact Hrows.
Qed.

Lemma reachable_grid_shape_witness :
  length (grid leftAlone) = GRID_ROWS /\
  forall i row, grid leftAlone !! i = Some row -> length row = GRID_COLS.
Proof. apply reachable_grid_shape, leftAlone_reachable. Defined.

Lemma existsb_sameCoord_false (sel : list Coord) (r c : Z) :
  existsb (sameCoord r c) sel = false -> mkCoord r c ∉ sel.
Proof.
  intros Hnone Hin. apply existsb_sameCoord in Hin. simpl in Hin. congruence.
Qed.

Lemma toggle_NoDup (sel : list Coord) (r c : Z) :
  NoDup sel -> NoDup (toggle sel r c).
Proof.
  intros Hnd. unfold toggle. destruct (existsb _ sel) eqn:Hex.
  - apply NoDup_ListNoDup, List.NoDup_filter, NoDup_ListNoDup, Hnd.
  - apply NoDup_app. split; [exact Hnd|]. split.
    + intros p Hp Hin. apply list_elem_of_singleton in Hin as ->.
      exact (existsb_sameCoord_false sel r c Hex Hp).
    + apply NoDup_singleton.
Qed.

Lemma handle_selected (ev : Event) (s s' : GameState) :
  handle ev s = Ret s' ->
  selected s' = selected s \/ selected s' = [] \/
  exists r c, selected s' = toggle (selected s) r c.
Proof.
  destruct ev as [m rows td | r c td rd | rd | |]; simpl.
  - intros [= <-]. auto.
  - intros H. destruct (handleBlockClick_inv r c td rd s s' H)
      as [-> | (b & _ & [-> | [-> | Hok]])]; eauto.
    right. left. eapply handleSuccess_selected; eauto.
  - intros H. left. eapply onInterval_selected; eauto.
  - intros [= <-]. auto.
  - intros [= <-]. auto.
Qed.

(** X8: the selection never holds a coordinate twice, in any reachable
    state: a click on a selected block removes it, and only a click on an
    unselected block appends. *)
Theorem reachable_selection_NoDup (s : GameState) :
  reachable s -> NoDup (selected s).
Proof.
  revert s. apply (reachable_handle_ind (fun s => NoDup (selected s))).
  - intros x. rewrite syncHighScore_selected. trivial.
  - intros. apply NoDup_nil_2.
  - intros ev x x' _ _ _ Hnd Hh.
    destruct (handle_selected ev x x' Hh) as [-> | [-> | (r & c & ->)]].
    + exact Hnd.
    + apply NoDup_nil_2.
    + apply toggle_NoDup, Hnd.
Qed.

Lemma reachable_selection_NoDup_witness : NoDup (selected aboveGap).
Proof. apply reachable_selection_NoDup, aboveGap_reachable. Defined.

(** ** Clicks that stay below the target *)

Lemma sumFrom_app (g : Grid) (l1 l2 : list Coord) (acc : Z) :
  sumFrom g (l1 ++ l2) acc = sumFrom g l1 acc ≫= sumFrom g l2.
Proof.
  revert acc. induction l1 as [|p l1 IH]; intros acc; simpl; [reflexivity|].
  destruct (selectedValue g p) as [v| |]; simpl; [apply IH | reflexivity ..].
Qed.

Lemma selectedValue_block (g : Grid) (r c : Z) (b : Block) :
  cellAt g r c = Some (Some b) -> selectedValue g (mkCoord r c) = Ret (value b).
Proof.
  intros H. apply cellAt_Some in H as (row & Hrow & Hcol).
  unfold selectedValue. simpl. rewrite Hrow, Hcol. reflexivity.
Qed.

Lemma filter_none (sel : list Coord) (r c : Z) :
  existsb (sameCoord r c) sel = false ->
  List.filter (fun s => negb (sameCoord r c s)) sel = sel.
Proof.
  induction sel as [|p sel IH]; simpl; [reflexivity|].
  destruct (sameCoord r c p); simpl; [discriminate|].
  intros H. rewrite IH by exact H. reflexivity.
Qed.

Lemma toggle_fresh (sel : list Coord) (r c : Z) :
  existsb (sameCoord r c) sel = false -> toggle sel r c = sel ++ [mkCoord r c].
Proof. unfold toggle. intros ->. reflexivity. Qed.

Lemma toggle_back (sel : list Coord) (r c : Z) :
  existsb (sameCoord r c) sel = false ->
  toggle (sel ++ [mkCoord r c]) r c = sel.
Proof.
  intros Hnone. unfold toggle.
  assert (Hself : sameCoord r c (mkCoord r c) = true).
  { unfold sameCoord. simpl. rewrite !Z.eqb_refl. reflexivity. }
  rewrite existsb_app, Hnone. simpl. rewrite Hself. simpl.
  rewrite List.filter_app, filter_none by exact Hnone.
  simpl. rewrite Hself. simpl. apply app_nil_r.
Qed.

Lemma setSelected_same (s : GameState) (sel : list Coord) :
  setSelected (selected s) (setSelected sel s) = s.
Proof. destruct s. reflexivity. Qed.

Lemma handleBlockClick_below (r c : Z) (td : TargetDraw) (rd : RowDraw)
    (s : GameState) (b : Block) (sum : Z) :
  status s = playing -> isPaused s = false ->
  cellAt (grid s) r c = Some (Some b) ->
  currentSum (grid s) (toggle (selected s) r c) = Ret sum ->
  sum < target s ->
  handleBlockClick r c td rd s = Ret (setSelected (toggle (selected s) r c) s).
Proof.
  intros Hst Hp Hcell Hsum Hlt.
  rewrite (handleBlockClick_on_block r c td rd s b Hst Hp Hcell), Hsum. simpl.
  destruct (Z.eqb_spec sum (target s)); [lia|].
  destruct (Z.gtb_spec sum (target s)); [lia | reflexivity].
Qed.

(** X9: a click on a block whose toggled selection sums to less than the
    target changes the selection to the toggled one and nothing else: grid,
    score, target, status and timer stay as they are, and no row is
    injected. *)
Theorem handleBlockClick_undershoot (r c : Z) (td : TargetDraw) (rd : RowDraw)
    (s : GameState) (b : Block) (sum : Z) :
  status s = playing -> isPaused s = false ->
  cellAt (grid s) r c = Some (Some b) ->
  currentSum (grid s) (toggle (selected s) r c) = Ret sum ->
  sum < target s ->
  exists s',
    handleBlockClick r c td rd s = Ret s' /\
    selected s' = toggle (selected s) r c /\
    grid s' = grid s /\ score s' = score s /\ target s' = target s /\
    status s' = status s /\ timeLeft s' = timeLeft s.
Proof.
  intros Hst Hp Hcell Hsum Hlt.
  exists (setSelected (toggle (selected s) r c) s).
  split; [|repeat split].
  apply (handleBlockClick_below r c td rd s b sum); assumption.
Qed.

Lemma handleBlockClick_undershoot_witness :
  exists s',
    handleBlockClick 7 0 firstTwo fives (started time) = Ret s' /\
    selected s' = toggle (selected (started time)) 7 0 /\
    grid s' = grid (started time) /\ score s' = score (started time) /\
    target s' = target (started time) /\
    status s' = status (started time) /\ timeLeft s' = timeLeft (started time).
Proof.
  apply (handleBlockClick_undershoot 7 0 firstTwo fives (started time)
           (mkBlock "b" 5) 5); reflexivity.
Defined.

(** X10: selecting a block and clicking it again gives back the very state
    the first click started from, as long as the selection stays below the
    target both times. *)
Theorem select_then_deselect (r c : Z) (td td' : TargetDraw) (rd rd' : RowDraw)
    (s : GameState) (b : Block) (sum : Z) :
  status s = playing -> isPaused s = false ->
  cellAt (grid s) r c = Some (Some b) ->
  existsb (sameCoord r c) (selected s) = false ->
  currentSum (grid s) (selected s) = Ret sum ->
  sum < target s -> sum + value b < target s ->
  andThen (handleBlockClick r c td rd) (handleBlockClick r c td' rd') s = Ret s.
Proof.
  intros Hst Hp Hcell Hnew Hsum Hlt Hlt'.
  assert (Hsum' : currentSum (grid s) (toggle (selected s) r c)
                  = Ret (sum + value b)).
  { rewrite toggle_fresh by exact Hnew. unfold currentSum in *.
    rewrite sumFrom_app, Hsum. simpl.
    rewrite (selectedValue_block _ _ _ _ Hcell). reflexivity. }
  unfold andThen.
  rewrite (handleBlockClick_below r c td rd s b _ Hst Hp Hcell Hsum' Hlt').
  simpl. rewrite toggle_fresh by exact Hnew.
  set (s1 := setSelected (selected s ++ [mkCoord r c]) s).
  assert (Hback : toggle (selected s1) r c = selected s) by (apply toggle_back, Hnew).
  rewrite (handleBlockClick_below r c td' rd' s1 b sum); try assumption.
  - rewrite Hback. unfold s1. rewrite setSelected_same. reflexivity.
  - rewrite Hback. exact Hsum.
Qed.

Lemma select_then_deselect_witness :
  andThen (handleBlockClick 8 3 firstTwo fives) (handleBlockClick 8 3 firstTwo fives)
          (started classic)
  = Ret (started classic).
Proof.
  apply (select_then_deselect 8 3 firstTwo firstTwo fives fives (started classic)
           (mkBlock "b" 5) 0); reflexivity.
Defined.

(** ** The seconds on the timer *)

Lemma handleBlockClick_timer (r c : Z) (td : TargetDraw) (rd : RowDraw)
    (s s' : GameState) :
  handleBlockClick r c td rd s = Ret s' -> timerBounds s -> timerBounds s'.
Proof.
  intros H Hb.
  destruct (handleBlockClick_inv r c td rd s s' H)
    as [-> | (b & _ & [-> | [-> | Hok]])]; try exact Hb.
  apply handleSuccess_inv in Hok as (cleared & _ & [[Hm Hadd] | [Hm ->]]).
  - apply addNewRow_fields in Hadd as (_ & _ & _ & Hmode & Htime & _).
    unfold timerBounds in *. rewrite Hmode, Htime. exact Hb.
  - unfold timerBounds in *. simpl. rewrite Hm in *. lia.
Qed.

Lemma onInterval_timer (rd : RowDraw) (s s' : GameState) :
  onInterval rd s = Ret s' -> timerBounds s -> timerBounds s'.
Proof.
  unfold onInterval, tick. destruct (timerRuns s); [|intros [= <-]; trivial].
  destruct (mode s) eqn:Hm.
  - intros H Hb. apply addNewRow_fields in H as (_ & _ & _ & Hmode & Htime & _).
    unfold timerBounds in *. rewrite Hmode, Htime, Hm in *. exact Hb.
  - destruct (Z.leb_spec (timeLeft s) 1).
    + destruct (addNewRow rd s) as [s1| |] eqn:Hadd; simpl; try discriminate.
      intros [= <-] _.
      apply addNewRow_fields in Hadd as (_ & _ & _ & Hmode & _).
      unfold timerBounds. simpl. rewrite Hmode, Hm. lia.
    + intros [= <-]. unfold timerBounds. simpl. rewrite Hm. lia.
Qed.

(** X11: in every reachable state of a time mode game the timer shows
    between 1 and 20 seconds; in a classic game it stays at 0. *)
Theorem reachable_timer_bounds (s : GameState) :
  reachable s ->
  match mode s with
  | time => 1 <= timeLeft s <= 20
  | classic => timeLeft s = 0
  end.
Proof.
  revert s. apply (reachable_handle_ind timerBounds).
  - intros x. unfold timerBounds, syncHighScore. destruct (_ >? _); trivial.
  - intros m rows td x _. unfold timerBounds. destruct m; simpl; lia.
  - intros ev x x' _ _ _ Hb.
    destruct ev as [m rows td | r c td rd | rd | |]; simpl.
    + intros [= <-]. unfold timerBounds. destruct m; simpl; lia.
    + intros H. eapply handleBlockClick_timer; eauto.
    + intros H. eapply onInterval_timer; eauto.
    + intros [= <-]. exact Hb.
    + intros [= <-]. exact Hb.
Qed.

Lemma reachable_timer_bounds_witness :
  match mode (oneSelected time) with
  | time => 1 <= timeLeft (oneSelected time) <= 20
  | classic => timeLeft (oneSelected time) = 0
  end.
Proof.
  apply reachable_timer_bounds.
  apply (runEvents_reachable [click 7 0] (started time)).
  - apply started_reachable.
  - constructor; [apply click_valid | constructor].
  - reflexivity.
Defined.

(** ** No handler raises during a game *)

Lemma sumFrom_total (g : Grid) (sel : list Coord) (acc : Z) :
  Forall (inGrid g) sel -> exists v, sumFrom g sel acc = Ret v.
Proof.
  revert acc. induction sel as [|p sel IH]; intros acc Hsel; simpl; [eauto|].
  inversion Hsel as [|? ? [cell Hp] Hrest]; subst.
  apply cellAt_Some in Hp as (row & Hrow & Hcol).
  unfold selectedValue. rewrite Hrow, Hcol.
  destruct cell; simpl; apply IH, Hrest.
Qed.

Lemma handleBlockClick_total (r c : Z) (td : TargetDraw) (rd : RowDraw)
    (s : GameState) :
  invariant s -> 0 <= r < Z.of_nat GRID_ROWS ->
  exists s', handleBlockClick r c td rd s = Ret s'.
Proof.
  intros (Hshape & Hsel & _) Hr. pose proof Hshape as [Hlen _].
  unfold handleBlockClick. destruct (negb _ || _); [eauto|].
  destruct (proj2 (jsIndex_is_Some (grid s) r)) as [row Hrow]; [lia|].
  rewrite Hrow. destruct (jsIndex row c) as [[b|]|] eqn:Hcol; eauto.
  assert (Hnew : Forall (inGrid (grid s)) (toggle (selected s) r c)).
  { apply toggle_inGrid.
    - eapply Forall_impl; [exact Hsel|].
      intros p. apply (inGrid_inBounds _ p Hshape).
    - exists (Some b). apply cellAt_Some. eauto. }
  destruct (sumFrom_total (grid s) _ 0 Hnew) as [sum Hsum].
  unfold currentSum. rewrite Hsum. simpl.
  destruct (sum =? target s); [|destruct (sum >? target s); eauto].
  unfold handleSuccess.
  destruct (clearCells_cells _ _ Hnew) as (cleared & Hclr & _).
  rewrite Hclr. simpl. destruct (mode s); [|eauto].
  match goal with |- exists s', addNewRow rd ?x = _ =>
    destruct (addNewRow_cases rd x) as [H | H]; [|rewrite H; eauto ..]
  end.
  simpl. rewrite (clearCells_length _ _ _ Hclr). lia.
Qed.

Lemma onInterval_total (rd : RowDraw) (s : GameState) :
  invariant s -> exists s', onInterval rd s = Ret s'.
Proof.
  intros ([Hlen _] & _). unfold onInterval, tick.
  assert (Hadd : exists s1, addNewRow rd s = Ret s1).
  { destruct (addNewRow_cases rd s) as [H | H]; [lia | eauto ..]. }
  destruct Hadd as [s1 Hs1].
  destruct (timerRuns s); [|eauto]. destruct (mode s); [eauto|].
  destruct (timeLeft s <=? 1); [|eauto]. rewrite Hs1. simpl. eauto.
Qed.

(** X12: during a game no handler raises: in every reachable state, every
    timer interval, every button and every click on a row of the grid
    returns a state. *)
Theorem reachable_no_raise (s : GameState) (ev : Event) :
  reachable s -> rowInRange ev -> exists s', dispatch ev s = Ret s'.
Proof.
  intros Hreach Hev. apply reachable_invariant in Hreach.
  assert (Hh : exists s1, handle ev s = Ret s1).
  { destruct ev as [m rows td | r c td rd | rd | |]; simpl; eauto.
    - apply handleBlockClick_total; assumption.
    - apply onInterval_total; assumption. }
  destruct Hh as [s1 Hs1]. unfold dispatch. rewrite Hs1. simpl. eauto.
Qed.

Lemma reachable_no_raise_witness :
  exists s', dispatch (click 5 1) aboveGap = Ret s'.
Proof.
  apply reachable_no_raise; [exact aboveGap_reachable|].
  unfold click, rowInRange, GRID_ROWS. lia.
Defined.

(** X13: a row injection on a grid shorter than [GRID_ROWS] rows raises
    unless row 0 holds a block: the shift loop reads a row that is not
    there.  The grid of the mounted component, [[]], is such a grid. *)
Theorem addNewRow_short_grid (rd : RowDraw) (s : GameState) :
  (length (grid s) < GRID_ROWS)%nat ->
  (forall top, topRow (grid s) = Some top -> emptyRow top) ->
  addNewRow rd s = TypeError.
Proof.
  intros Hshort Hempty. unfold addNewRow.
  destruct (grid s !! 0%nat) as [top|] eqn:Htop; [|reflexivity].
  rewrite (proj2 (existsb_occupied_false top) (Hempty top Htop)).
  rewrite shiftUp_short; [reflexivity | exact Hshort|].
  apply lookup_lt_Some in Htop. exact Htop.
Qed.

Lemma addNewRow_short_grid_witness :
  addNewRow fives mounted = TypeError /\
  addNewRow fives (setGrid (replicate 9 (replicate 6 None)) mounted) = TypeError.
Proof.
  split.
  - apply addNewRow_short_grid; [unfold GRID_ROWS; simpl; lia|].
    intros top Htop. discriminate Htop.
  - apply addNewRow_short_grid; [unfold GRID_ROWS; simpl; lia|].
    intros top [= <-]. repeat constructor.
Defined.

(** ** Block values and the target they lead to *)

Lemma generateRow_digit (rd : RowDraw) :
  validRowDraw rd ->
  Forall (fun cell : Cell => forall b, cell = Some b -> digit b) (generateRow rd).
Proof.
  intros Hrd. eapply Forall_impl; [apply generateRow_fresh, Hrd|].
  intros cell (b & -> & Hb) b' [= <-]. exact Hb.
Qed.

Lemma initialGrid_digit (rows : nat -> RowDraw) :
  (forall i, validRowDraw (rows i)) -> digitGrid (initialGrid rows).
Proof.
  intros Hrows. unfold digitGrid, initialGrid, emptyGrid.
  cbn [seq INITIAL_ROWS fold_left].
  repeat apply Forall_insert; try (apply generateRow_digit, Hrows).
  apply Forall_forall. intros row Hrow.
  apply elem_of_replicate in Hrow as [-> _].
  apply Forall_forall. intros cell Hcell.
  apply elem_of_replicate in Hcell as [-> _]. discriminate.
Qed.

Lemma clearCell_digit (g g' : Grid) (p : Coord) :
  clearCell g p = Ret g' -> digitGrid g -> digitGrid g'.
Proof.
  unfold clearCell. destruct (jsIndex g (coord_r p)) as [row|] eqn:Hrow;
    [|discriminate].
  destruct (_ && _); [|discriminate].
  intros [= <-] Hg. apply Forall_insert; [exact Hg|].
  apply Forall_insert; [|discriminate].
  apply jsIndex_Some in Hrow as [_ Hrow].
  unfold digitGrid in Hg. rewrite Forall_lookup in Hg. eauto.
Qed.

Lemma clearCells_digit (sel : list Coord) (g g' : Grid) :
  clearCells g sel = Ret g' -> digitGrid g -> digitGrid g'.
Proof.
  revert g. induction sel as [|p sel IH]; intros g; simpl.
  - intros [= <-]. trivial.
  - destruct (clearCell g p) as [g1| |] eqn:Hg1; simpl; try discriminate.
    intros Hg' Hg. eapply IH; [exact Hg'|]. eapply clearCell_digit; eauto.
Qed.

Lemma shiftUp_Ret_length (g g' : Grid) :
  shiftUp g = Ret g' -> g !! 0%nat <> None -> (GRID_ROWS <= length g)%nat.
Proof.
  intros H Htop. destruct (le_lt_dec GRID_ROWS (length g)) as [Hle | Hlt];
    [exact Hle|].
  rewrite shiftUp_short in H; [discriminate | exact Hlt|].
  destruct (g !! 0%nat) eqn:H0; [|congruence].
  apply lookup_lt_Some in H0. exact H0.
Qed.

Lemma addNewRow_digit (rd : RowDraw) (s s' : GameState) :
  validRowDraw rd -> addNewRow rd s = Ret s' ->
  digitGrid (grid s) -> digitGrid (grid s').
Proof.
  intros Hrd H Hg. unfold addNewRow in H.
  destruct (grid s !! 0%nat) as [top|] eqn:Htop; [|discriminate].
  destruct (existsb occupied top); [injection H as <-; exact Hg|].
  destruct (shiftUp (grid s)) as [g| |] eqn:Hshift; simpl in H; try discriminate.
  injection H as <-. cbn [grid setGrid].
  assert (Hlen : (GRID_ROWS <= length (grid s))%nat).
  { eapply shiftUp_Ret_length; [exact Hshift | congruence]. }
  rewrite shiftUp_rows in Hshift by exact Hlen. injection Hshift as <-.
  apply Forall_insert; [|apply generateRow_digit, Hrd].
  unfold shiftedRows. apply Forall_app.
  split; [apply Forall_take, Forall_drop | apply Forall_drop]; exact Hg.
Qed.

Lemma digitGrid_flatBlocks (g : Grid) :
  digitGrid g -> Forall digit (flatBlocks g).
Proof.
  intros Hg. apply Forall_forall. intros b Hb.
  apply flatBlocks_elem in Hb as (i & j & row & Hi & Hj).
  unfold digitGrid in Hg. rewrite Forall_lookup in Hg.
  pose proof (Hg i row Hi) as Hrow. rewrite Forall_lookup in Hrow.
  exact (Hrow j (Some b) Hj b eq_refl).
Qed.

Lemma sumValues_bound (l : list Block) :
  Forall digit l -> sumValues l <= 9 * Z.of_nat (length l).
Proof.
  unfold sumValues. intros Hl.
  assert (H : forall acc, fold_left (fun acc b => acc + value b) l acc
                          <= acc + 9 * Z.of_nat (length l)).
  { induction Hl as [|b l Hb _ IH]; intros acc; simpl; [lia|].
    specialize (IH (acc + value b)). unfold digit in Hb. lia. }
  apply (H 0).
Qed.

Lemma generateNewTarget_four_digits (td : TargetDraw) (g : Grid) :
  validTargetDraw td -> digitGrid g -> generateNewTarget td g <= 36.
Proof.
  intros Htd Hg. unfold generateNewTarget.
  destruct (_ =? _)%nat; [lia|].
  destruct (pickCount_range td g Htd) as (d & Hd & Hcount).
  destruct Htd as [_ Hperm].
  assert (Hpick : pickedBlocks td g =
            take (Z.to_nat (pickCount td g)) (sort_draw td (flatBlocks g))).
  { unfold pickedBlocks, jsSlice0.
    destruct (Z.ltb_spec (pickCount td g) 0); [lia | reflexivity]. }
  assert (Hdigits : Forall digit (pickedBlocks td g)).
  { rewrite Hpick. apply Forall_take. rewrite (Hperm _).
    apply digitGrid_flatBlocks, Hg. }
  assert (Hlen : (length (pickedBlocks td g) <= 4)%nat).
  { rewrite Hpick, length_take. lia. }
  pose proof (sumValues_bound _ Hdigits). unfold clampTarget. lia.
Qed.

Lemma handle_digits (ev : Event) (s s' : GameState) :
  validEvent ev -> handle ev s = Ret s' ->
  digitGrid (grid s) /\ target s <= 36 ->
  digitGrid (grid s') /\ target s' <= 36.
Proof.
  intros Hv Hh [Hg Ht].
  destruct ev as [m rows td | r c td rd | rd | |]; simpl in Hh, Hv.
  - injection Hh as <-. destruct Hv as [Hrows Htd]. split.
    + apply initialGrid_digit, Hrows.
    + apply generateNewTarget_four_digits; [exact Htd|].
      apply initialGrid_digit, Hrows.
  - destruct Hv as [Htd Hrd].
    destruct (handleBlockClick_inv r c td rd s s' Hh)
      as [-> | (b & _ & [-> | [-> | Hok]])]; auto.
    apply handleSuccess_inv in Hok as (cleared & Hclr & Hmode).
    pose proof (clearCells_digit _ _ _ Hclr Hg) as Hcleared.
    pose proof (generateNewTarget_four_digits td cleared Htd Hcleared) as Hnew.
    destruct Hmode as [[_ Hadd] | [_ ->]]; [|auto].
    split; [eapply addNewRow_digit; eauto|].
    apply addNewRow_fields in Hadd as (_ & -> & _). exact Hnew.
  - destruct (onInterval_inv rd s s' Hh) as [-> | [-> | (s1 & Hs1 & Hs')]]; auto.
    assert (digitGrid (grid s1) /\ target s1 <= 36) as [Hg1 Ht1].
    { split; [eapply addNewRow_digit; eauto|].
      apply addNewRow_fields in Hs1 as (_ & -> & _). exact Ht. }
    destruct Hs' as [-> | ->]; auto.
  - injection Hh as <-. auto.
  - injection Hh as <-. auto.
Qed.

Lemma reachable_digits (s : GameState) :
  reachable s -> digitGrid (grid s) /\ target s <= 36.
Proof.
  intros Hreach.
  assert (Hsync : forall x, digitGrid (grid x) /\ target x <= 36 ->
            digitGrid (grid (syncHighScore x)) /\ target (syncHighScore x) <= 36).
  { intros x. unfold syncHighScore. destruct (_ >? _); trivial. }
  induction Hreach as [m rows td Hv | s ev s' _ IH Hv Hd].
  - apply Hsync. destruct Hv as [Hrows Htd]. split.
    + apply initialGrid_digit, Hrows.
    + apply generateNewTarget_four_digits; [exact Htd|].
      apply initialGrid_digit, Hrows.
  - apply dispatch_inv in Hd as (s1 & Hh & ->).
    apply Hsync. eapply handle_digits; eauto.
Qed.

(** X14: every block on the grid of a reachable state has a value between
    1 and 9. *)
Theorem reachable_block_values (s : GameState) (r c : Z) (b : Block) :
  reachable s -> cellAt (grid s) r c = Some (Some b) -> 1 <= value b <= 9.
Proof.
  intros Hreach Hcell. apply reachable_digits in Hreach as [Hg _].
  apply cellAt_Some in Hcell as (row & Hrow & Hcol).
  apply jsIndex_Some in Hrow as [_ Hrow]. apply jsIndex_Some in Hcol as [_ Hcol].
  unfold digitGrid in Hg. rewrite Forall_lookup in Hg.
  pose proof (Hg _ _ Hrow) as Hcells. rewrite Forall_lookup in Hcells.
  exact (Hcells _ _ Hcol b eq_refl).
Qed.

Lemma reachable_block_values_witness :
  1 <= value (mkBlock "b" 5) <= 9.
Proof.
  apply (reachable_block_values aboveGap 5 0); [exact aboveGap_reachable|].
  vm_compute. reflexivity.
Defined.

(** X15: in every reachable state the target is at most 36: it is the sum
    of at most four blocks of value at most 9, so the upper clamp at 40 of
    [generateNewTarget] never takes effect during a game. *)
Theorem reachable_target_at_most_36 (s : GameState) :
  reachable s -> target s <= 36.
Proof. intros Hreach. apply reachable_digits in Hreach as [_ Ht]. exact Ht. Qed.

Lemma reachable_target_at_most_36_witness : target leftAlone <= 36.
Proof. apply reachable_target_at_most_36, leftAlone_reachable. Defined.

(** ** The blocks on the grid across a row injection *)

Lemma flatBlocks_app (g1 g2 : Grid) :
  flatBlocks (g1 ++ g2) = flatBlocks g1 ++ flatBlocks g2.
Proof. unfold flatBlocks. rewrite join_app, omap_app. reflexivity. Qed.

Lemma flatBlocks_cons (row : Row) (g : Grid) :
  flatBlocks (row :: g) = rowBlocks row ++ flatBlocks g.
Proof.
  unfold flatBlocks, rowBlocks.
  change (mjoin (row :: g)) with (row ++ mjoin g). apply omap_app.
Qed.

Lemma rowBlocks_empty (row : Row) : emptyRow row -> rowBlocks row = [].
Proof.
  unfold emptyRow, rowBlocks. induction 1 as [|cell row -> _ IH];
    [reflexivity | exact IH].
Qed.

Lemma injected_tail (rd : RowDraw) (g : Grid) :
  length g = GRID_ROWS -> injected rd g = drop 1 g ++ [generateRow rd].
Proof.
  intros Hlen. unfold GRID_ROWS in Hlen.
  do 10 (destruct g as [|? g]; [discriminate Hlen|]).
  destruct g; [reflexivity | discriminate Hlen].
Qed.

(** X16: a row injection on a grid of [GRID_ROWS] rows with an empty row 0
    loses no block and reorders none: the blocks of the new grid, read row
    by row, are the blocks of the old grid followed by the [GRID_COLS]
    blocks of the generated row. *)
Theorem addNewRow_keeps_blocks (rd : RowDraw) (s : GameState) (top : Row) :
  length (grid s) = GRID_ROWS -> topRow (grid s) = Some top -> emptyRow top ->
  exists s',
    addNewRow rd s = Ret s' /\
    flatBlocks (grid s') = flatBlocks (grid s) ++ rowBlocks (generateRow rd) /\
    length (flatBlocks (grid s')) = (length (flatBlocks (grid s)) + GRID_COLS)%nat.
Proof.
  intros Hlen Htop Hempty. exists (setGrid (injected rd (grid s)) s).
  assert (Hblocks : flatBlocks (injected rd (grid s))
                    = flatBlocks (grid s) ++ rowBlocks (generateRow rd)).
  { rewrite injected_tail by exact Hlen.
    unfold topRow in Htop. destruct (grid s) as [|row rest]; [discriminate|].
    injection Htop as ->. simpl drop.
    rewrite flatBlocks_app, (flatBlocks_cons top rest), rowBlocks_empty by exact Hempty.
    rewrite (flatBlocks_cons (generateRow rd) []).
    change (flatBlocks []) with (@nil Block).
    rewrite !app_nil_r. reflexivity. }
  split; [|split].
  - apply addNewRow_inject with top; [lia | exact Htop|].
    apply existsb_occupied_false, Hempty.
  - exact Hblocks.
  - cbn [grid setGrid]. rewrite Hblocks, length_app. reflexivity.
Qed.

Lemma addNewRow_keeps_blocks_witness :
  exists s',
    addNewRow fives aboveGap = Ret s' /\
    flatBlocks (grid s') = flatBlocks (grid aboveGap) ++ rowBlocks (generateRow fives) /\
    length (flatBlocks (grid s')) = (length (flatBlocks (grid aboveGap)) + GRID_COLS)%nat.
Proof.
  apply (addNewRow_keeps_blocks fives aboveGap (replicate 6 None)).
  - reflexivity.
  - reflexivity.
  - repeat constructor.
Defined.

(** ** The values [getRandomValue] can return *)

(** X17: [getRandomValue] maps the random numbers of [0,1) onto exactly the
    values 1..9: every draw gives one of them and each of them comes from
    some draw. *)
Theorem getRandomValue_onto (v : Z) :
  (exists u, unitDraw u /\ getRandomValue u = v) <-> 1 <= v <= 9.
Proof.
  split.
  - intros (u & Hu & <-). apply getRandomValue_range, Hu.
  - intros Hv. exists ((v - 1) # 9). split.
    + split; unfold Qle, Qlt; simpl; lia.
    + unfold getRandomValue, Qfloor, Qmult. simpl.
      rewrite Z.div_mul by discriminate. lia.
Qed.

(** ** Pause *)

Lemma syncHighScore_settled (s : GameState) :
  score s <= highScore s -> syncHighScore s = s.
Proof.
  intros H. unfold syncHighScore.
  destruct (Z.gtb_spec (score s) (highScore s)); [lia | reflexivity].
Qed.

Lemma reachable_settled (s : GameState) : reachable s -> syncHighScore s = s.
Proof.
  intros Hreach. apply syncHighScore_settled.
  destruct Hreach as [m rows td _ | s ev s' _ _ Hd].
  - apply syncHighScore_covers.
  - apply dispatch_inv in Hd as (s1 & _ & ->). apply syncHighScore_covers.
Qed.

(** X18: while the game is paused, clicks and timer intervals change
    nothing at all: in a reachable paused state each of them returns the
    state it was given. *)
Theorem paused_suspends (s : GameState) (ev : Event) :
  reachable s -> isPaused s = true -> suspendedByPause ev ->
  dispatch ev s = Ret s.
Proof.
  intros Hreach Hp Hev. unfold dispatch.
  assert (Hh : handle ev s = Ret s).
  { destruct ev as [m rows td | r c td rd | rd | |]; simpl; try destruct Hev.
    - unfold handleBlockClick. rewrite Hp, orb_true_r. reflexivity.
    - unfold onInterval, timerRuns. rewrite Hp, andb_false_r. reflexivity. }
  rewrite Hh. simpl. rewrite reachable_settled by exact Hreach. reflexivity.
Qed.

Lemma paused_suspends_witness :
  dispatch (Interval fives) (stateOf (dispatch PauseButton aboveGap))
  = Ret (stateOf (dispatch PauseButton aboveGap)).
Proof.
  apply paused_suspends.
  - apply (reach_step aboveGap PauseButton).
    + exact aboveGap_reachable.
    + exact I.
    + reflexivity.
  - reflexivity.
  - exact I.
Defined.

(** ** The classic mode timer *)

(** X19: in classic mode, playing and not paused, on a grid of [GRID_ROWS]
    rows, an interval of the timer either ends the game, when row 0 holds a
    block, leaving the grid as it is, or shifts the rows up and appends a
    generated row; either way score, target, selection and the seconds shown
    stay as they are. *)
Theorem classic_interval (rd : RowDraw) (s : GameState) :
  status s = playing -> isPaused s = false -> mode s = classic ->
  length (grid s) = GRID_ROWS ->
  exists s',
    onInterval rd s = Ret s' /\
    score s' = score s /\ target s' = target s /\
    selected s' = selected s /\ timeLeft s' = timeLeft s /\
    ((topOccupied (grid s) /\ status s' = gameover /\ grid s' = grid s) \/
     (~ topOccupied (grid s) /\ status s' = playing /\
      grid s' = drop 1 (grid s) ++ [generateRow rd])).
Proof.
  intros Hst Hp Hm Hlen.
  assert (Hrun : onInterval rd s = addNewRow rd s).
  { unfold onInterval, timerRuns, isPlaying. rewrite Hst, Hp, Hm. reflexivity. }
  rewrite Hrun.
  destruct (lookup_lt_is_Some_2 (grid s) 0) as [top Htop];
    [unfold GRID_ROWS in Hlen; lia|].
  destruct (existsb occupied top) eqn:Hocc.
  - exists (setStatus gameover s).
    split; [apply addNewRow_gameover with top; assumption|].
    repeat (split; [reflexivity|]). left.
    split; [|split; reflexivity].
    apply existsb_occupied_true in Hocc as (k & b & Hk). exists top, k, b. auto.
  - exists (setGrid (injected rd (grid s)) s).
    split; [apply addNewRow_inject with top; [lia | assumption ..]|].
    repeat (split; [reflexivity|]). right.
    split; [|split; [exact Hst | apply injected_tail, Hlen]].
    intros (top' & k & b & Htop' & Hk). unfold topRow in Htop'.
    rewrite Htop in Htop'. injection Htop' as <-.
    assert (existsb occupied top = true) by (apply existsb_occupied_true; eauto).
    congruence.
Qed.

Lemma classic_interval_witness :
  exists s',
    onInterval fives aboveGap = Ret s' /\
    score s' = score aboveGap /\ target s' = target aboveGap /\
    selected s' = selected aboveGap /\ timeLeft s' = timeLeft aboveGap /\
    ((topOccupied (grid aboveGap) /\ status s' = gameover /\
      grid s' = grid aboveGap) \/
     (~ topOccupied (grid aboveGap) /\ status s' = playing /\
      grid s' = drop 1 (grid aboveGap) ++ [generateRow fives])).
Proof. apply (classic_interval fives aboveGap); reflexivity. Defined.

(** ** The score is never negative *)

(** X20: in every reachable state the score is at least 0. *)
Theorem reachable_score_nonneg (s : GameState) :
  reachable s -> 0 <= score s.
Proof.
  revert s. apply (reachable_handle_ind (fun s => 0 <= score s)).
  - intros x. rewrite syncHighScore_score. trivial.
  - intros. simpl. lia.
  - intros ev x x' Hreach _ Hev Hpos Hh.
    apply reachable_invariant in Hreach as (_ & _ & Htgt).
    destruct (handle_score ev x x' Hev Hh) as [-> | [n ->]]; nia.
Qed.

Lemma reachable_score_nonneg_witness : 0 <= score leftAlone.
Proof. apply reachable_score_nonneg, leftAlone_reachable. Defined.
